(** * The translation dispatch pipeline of [bot_enterprise.py]

    A shallow embedding of the policy store (two SQLite tables), the
    admission controller ([RATE_LIMIT]), the memoised provider call
    ([cached_translate] under [functools.lru_cache]) and the message
    handler, followed by the properties of the specification that are
    settled against them.

    Conventions of the embedding:
    - a Python [str] is a Rocq [string] holding its UTF-8 bytes; what
      [str.lower()] and the class [\w] do outside ASCII is left to the
      Unicode tables, which are parameters;
    - a Python [int] is a [Z]; a clock reading of [time.time()] is a
      rational [Q] (every finite float is one) and [now - last] is the
      exact difference;
    - module-level mutable objects ([RATE_LIMIT], the cache, the database)
      are threaded through explicitly;
    - a call that may raise returns a [result]. *)

From Stdlib Require Import ZArith QArith String Ascii List Lia.
From stdpp Require Import base option list gmap strings pretty.

Local Open Scope Z_scope.

(** ** Python values *)

Module Py.

(** An exception, carried by its message. *)
Inductive exn : Type := Exception (msg : string).

Inductive result (A : Type) : Type :=
| Ok (a : A)
| Raise (e : exn).
Arguments Ok {A} a.
Arguments Raise {A} e.

(** Truth value of an [Optional[str]]: [None] and [""] are false. *)
Definition truthy (s : option string) : bool :=
  match s with
  | Some s => negb (String.eqb s "")
  | None => false
  end.

(** [a or b] on [Optional[str]] operands. *)
Definition or_ (a b : option string) : option string :=
  if truthy a then a else b.

Definition is_lower (c : ascii) : bool :=
  let n := nat_of_ascii c in (97 <=? n)%nat && (n <=? 122)%nat.

Definition is_upper (c : ascii) : bool :=
  let n := nat_of_ascii c in (65 <=? n)%nat && (n <=? 90)%nat.

Definition is_digit (c : ascii) : bool :=
  let n := nat_of_ascii c in (48 <=? n)%nat && (n <=? 57)%nat.

Definition upper_char (c : ascii) : ascii :=
  if is_lower c then ascii_of_nat (nat_of_ascii c - 32) else c.

Definition lower_char (c : ascii) : ascii :=
  if is_upper c then ascii_of_nat (nat_of_ascii c + 32) else c.

Fixpoint map_str (f : ascii -> ascii) (s : string) : string :=
  match s with
  | EmptyString => EmptyString
  | String c s' => String (f c) (map_str f s')
  end.

(** [str.upper()] on the ASCII letters, which is all a language code
    holds; bytes of other characters are kept. *)
Definition upper (s : string) : string := map_str upper_char s.

(** The case tables of Unicode are not part of the program: what
    [str.lower()] gives for a text that holds a character outside ASCII is
    left to this oracle. *)
Class UnicodeCase : Type := {
  unicode_lower : string -> string
}.

(** Every byte is below 128: the text holds ASCII characters only. *)
Fixpoint is_ascii (s : string) : bool :=
  match s with
  | EmptyString => true
  | String c s' => (nat_of_ascii c <? 128)%nat && is_ascii s'
  end.

(** [str.lower()]. In a text of ASCII characters the letters A-Z become
    a-z and nothing else changes; for any other text the Unicode tables
    decide (they turn the Kelvin sign U+212A into [k], for one). *)
Definition lower {UC : UnicodeCase} (s : string) : string :=
  if is_ascii s then map_str lower_char s else unicode_lower s.

(** The ASCII part of the class [\w]: letters, digits and underscore. *)
Definition ascii_word (c : ascii) : bool :=
  is_lower c || is_upper c || is_digit c || Ascii.eqb c "_"%char.

(** [str(n)] for an [int], as an f-string field prints it. *)
Definition str_of_int (n : Z) : string := pretty n.

End Py.

Import Py.

(** ** Supported languages *)

(** [SUPPORTED_LANGUAGES], a dict literal: code to display name, in
    insertion order. *)
Definition SUPPORTED_LANGUAGES : list (string * string) :=
  [ ("en", "English"); ("ru", "Russian"); ("hi", "Hindi");
    ("bn", "Bengali"); ("es", "Spanish"); ("fr", "French");
    ("de", "German"); ("it", "Italian"); ("pt", "Portuguese");
    ("tr", "Turkish"); ("ar", "Arabic"); ("ur", "Urdu");
    ("fa", "Persian"); ("ja", "Japanese"); ("ko", "Korean");
    ("zh-cn", "Chinese (Simplified)"); ("zh-tw", "Chinese (Traditional)");
    ("vi", "Vietnamese"); ("th", "Thai"); ("id", "Indonesian");
    ("ms", "Malay"); ("nl", "Dutch"); ("pl", "Polish");
    ("uk", "Ukrainian"); ("ro", "Romanian"); ("el", "Greek");
    ("sv", "Swedish"); ("no", "Norwegian"); ("fi", "Finnish");
    ("he", "Hebrew") ].

(** [SUPPORTED_LANGUAGES[lang]], [None] standing for [KeyError]. *)
Fixpoint dict_get (d : list (string * string)) (k : string) : option string :=
  match d with
  | [] => None
  | (k', v) :: d' => if String.eqb k k' then Some v else dict_get d' k
  end.

(** [lang in SUPPORTED_LANGUAGES]. *)
Definition is_supported (lang : string) : bool :=
  match dict_get SUPPORTED_LANGUAGES lang with
  | Some _ => true
  | None => false
  end.

(** ** The settings database *)

Module Store.

(** A row of [chat_settings]; [chat_id] is the key of the table. *)
Record chat_row : Type := ChatRow {
  enabled : Z;
  target_lang : string
}.

(** The two tables, keyed by their INTEGER PRIMARY KEY; a row of
    [user_settings] is its [enabled] column. *)
Record DB : Type := MkDB {
  chat_settings : gmap Z chat_row;
  user_settings : gmap Z Z
}.

(** The database right after the two CREATE TABLE IF NOT EXISTS on a
    fresh file. *)
Definition empty_db : DB := MkDB ∅ ∅.

(** Column defaults of the schema: [enabled INTEGER DEFAULT 1],
    [target_lang TEXT DEFAULT 'en']. *)
Definition DEFAULT_enabled : Z := 1.
Definition DEFAULT_target_lang : string := "en".

(** [REPLACE INTO chat_settings(chat_id, ...) VALUES (...)]: a row with
    the same primary key is deleted, then the new row is inserted; a
    column the statement does not name takes its DEFAULT. [en] and [tl]
    are the values of the columns the statement names. *)
Definition replace_into_chat_settings
    (chat_id : Z) (en : option Z) (tl : option string)
    (t : gmap Z chat_row) : gmap Z chat_row :=
  <[chat_id := ChatRow (default DEFAULT_enabled en)
                       (default DEFAULT_target_lang tl)]>
    (delete chat_id t).

(** [REPLACE INTO user_settings(user_id, enabled) VALUES (?, en)]. *)
Definition replace_into_user_settings
    (user_id : Z) (en : Z) (t : gmap Z Z) : gmap Z Z :=
  <[user_id := en]> (delete user_id t).

(** [SELECT enabled ...; row[0] == 1 if row else True]. *)
Definition chat_enabled (chat_id : Z) (db : DB) : bool :=
  match chat_settings db !! chat_id with
  | Some row => enabled row =? 1
  | None => true
  end.

Definition user_enabled (user_id : Z) (db : DB) : bool :=
  match user_settings db !! user_id with
  | Some en => en =? 1
  | None => true
  end.

(** [SELECT target_lang ...; row[0] if row else "en"]. *)
Definition chat_target (chat_id : Z) (db : DB) : string :=
  match chat_settings db !! chat_id with
  | Some row => target_lang row
  | None => "en"
  end.

End Store.

Import Store.

(** ** Updates delivered by the transport *)

Record Message : Type := MkMessage {
  text : option string;
  caption : option string
}.

Record Update : Type := MkUpdate {
  effective_message : option Message;
  effective_chat_id : Z;
  effective_user_id : Z
}.

(** ** Commands *)

Module Commands.

(** Each command returns the database after its statement and the text
    it passes to [update.message.reply_text]. *)

Definition translate_on (update : Update) (db : DB) : DB * string :=
  let chat_id := effective_chat_id update in
  (MkDB (replace_into_chat_settings chat_id (Some 1) None (chat_settings db))
        (user_settings db),
   "✅ Translation enabled in this chat").

Definition translate_off (update : Update) (db : DB) : DB * string :=
  let chat_id := effective_chat_id update in
  (MkDB (replace_into_chat_settings chat_id (Some 0) None (chat_settings db))
        (user_settings db),
   "⛔ Translation disabled in this chat").

Definition user_on (update : Update) (db : DB) : DB * string :=
  let user_id := effective_user_id update in
  (MkDB (chat_settings db)
        (replace_into_user_settings user_id 1 (user_settings db)),
   "✅ Translation enabled for you").

Definition user_off (update : Update) (db : DB) : DB * string :=
  let user_id := effective_user_id update in
  (MkDB (chat_settings db)
        (replace_into_user_settings user_id 0 (user_settings db)),
   "⛔ Translation disabled for you").

Definition usage_reply : string := "Usage: /setlang <language_code>".
Definition unsupported_reply : string :=
  "❌ Unsupported language. Use /languages".

(** [args] is [context.args]. *)
Definition setlang {UC : UnicodeCase}
    (update : Update) (args : list string) (db : DB) : DB * string :=
  match args with
  | [] => (db, usage_reply)
  | arg0 :: _ =>
      let lang := lower arg0 in
      match dict_get SUPPORTED_LANGUAGES lang with
      | None => (db, unsupported_reply)
      | Some name =>
          let chat_id := effective_chat_id update in
          (MkDB (replace_into_chat_settings chat_id None (Some lang)
                   (chat_settings db))
                (user_settings db),
           "🌐 Target language set to " +:+ name +:+ " (" +:+ lang +:+ ")")
      end
  end.

(** The commands that write to the store, and a session of them. *)
Inductive command : Type :=
| TranslateOn
| TranslateOff
| UserOn
| UserOff
| SetLang (args : list string).

Definition run_command {UC : UnicodeCase}
    (db : DB) (uc : Update * command) : DB :=
  let (update, c) := uc in
  match c with
  | TranslateOn => fst (translate_on update db)
  | TranslateOff => fst (translate_off update db)
  | UserOn => fst (user_on update db)
  | UserOff => fst (user_off update db)
  | SetLang args => fst (setlang update args db)
  end.

Definition run_commands {UC : UnicodeCase}
    (cmds : list (Update * command)) (db : DB) : DB :=
  fold_left run_command cmds db.

End Commands.

Import Commands.

(** ** Admission control *)

Module Rate.

Definition RATE_SECONDS : Q := 2.

(** [is_rate_limited(key)], with the reading [now] of [time.time()] and
    the dict [RATE_LIMIT] made explicit. Returns the answer and the dict
    after the call. [RATE_LIMIT.get(key, 0)] reads 0 for a new key. *)
Definition is_rate_limited (now : Q) (key : string)
    (RATE_LIMIT : gmap string Q) : bool * gmap string Q :=
  let last := default 0%Q (RATE_LIMIT !! key) in
  if Qlt_le_dec (now - last) RATE_SECONDS
  then (true, RATE_LIMIT)
  else (false, <[key := now]> RATE_LIMIT).

(** A sequence of checks, each with its key and its clock reading; the
    answers are logged next to the checks, oldest first. *)
Definition check_log : Type := list (string * Q * bool).

Fixpoint run_checks (evs : list (string * Q)) (m : gmap string Q)
    : check_log * gmap string Q :=
  match evs with
  | [] => ([], m)
  | (key, now) :: evs' =>
      let '(limited, m') := is_rate_limited now key m in
      let '(log, m'') := run_checks evs' m' in
      ((key, now, limited) :: log, m'')
  end.


End Rate.

Import Rate.

(** ** The provider and the memoised call *)

(** The translation provider ([deep_translator.GoogleTranslator]) is an
    external service: its answers depend on a state [W] of its own (the
    network, quotas), and either call may raise. *)
Class GoogleTranslator (W : Type) : Type := {
  (** [GoogleTranslator().detect(text)] *)
  gt_detect : W -> string -> result string * W;
  (** [GoogleTranslator(source=src, target=dst).translate(text)] *)
  gt_translate : W -> string -> string -> string -> result string * W
}.

(** The Unicode tables of [re] are not part of the program: whether a text
    holds a word character outside ASCII is left to this oracle. *)
Class UnicodeTables : Type := {
  unicode_word : string -> bool
}.

(** The arguments of one call of [cached_translate]: [(text, src, dst)]. *)
Definition key : Type := string * string * string.

Module Lru.

(** The entries of an [lru_cache], least recently used first. *)
Abbreviation entries := (list (key * string)) (only parsing).

Fixpoint lru_find (k : key) (c : entries) : option string :=
  match c with
  | [] => None
  | (k', v) :: c' => if decide (k = k') then Some v else lru_find k c'
  end.

(** A hit moves the entry to the most recently used end. *)
Definition lru_touch (k : key) (v : string) (c : entries) : entries :=
  filter (λ e, e.1 ≠ k) c ++ [(k, v)].

(** Storing the result of a miss: nothing when the cache size is 0; when
    the cache is full the least recently used entry leaves. *)
Definition lru_store (maxsize : nat) (k : key) (v : string) (c : entries)
    : entries :=
  if (maxsize =? 0)%nat then c
  else if (maxsize <=? length c)%nat then tail c ++ [(k, v)]
  else c ++ [(k, v)].

End Lru.

Import Lru.

(** ** The state of the process *)

Record State (W : Type) : Type := MkState {
  db : DB;                        (* settings.db *)
  RATE_LIMIT : gmap string Q;     (* the dict RATE_LIMIT *)
  cache : entries;                (* the lru_cache of cached_translate *)
  world : W;                      (* the provider's own state *)
  calls : list key;               (* log of the provider's translate calls *)
  sent : list string              (* texts given to message.reply_text *)
}.
Arguments MkState {W}.
Arguments db {W}.
Arguments RATE_LIMIT {W}.
Arguments cache {W}.
Arguments world {W}.
Arguments calls {W}.
Arguments sent {W}.

Definition set_RATE_LIMIT {W} (rl : gmap string Q) (st : State W) : State W :=
  MkState (db st) rl (cache st) (world st) (calls st) (sent st).

Definition set_world {W} (w : W) (st : State W) : State W :=
  MkState (db st) (RATE_LIMIT st) (cache st) w (calls st) (sent st).

Definition reply_text {W} (msg : string) (st : State W) : State W :=
  MkState (db st) (RATE_LIMIT st) (cache st) (world st) (calls st)
          (sent st ++ [msg]).

(** The state of a process started on a fresh database. *)
Definition init {W} (w : W) : State W := MkState empty_db ∅ [] w [] [].

Section Pipeline.

Context {W : Type} `{GT : GoogleTranslator W} `{UT : UnicodeTables}.

(** [has_text]: [re.search(r"\w", text)]. *)
Definition has_text (text : string) : bool :=
  existsb ascii_word (list_ascii_of_string text) || unicode_word text.

(** [detect_lang]: any exception of the provider becomes ["auto"]. *)
Definition detect_lang (text : string) (w : W) : string * W :=
  match gt_detect w text with
  | (Ok lang, w') => (lang, w')
  | (Raise _, w') => ("auto", w')
  end.

Definition maxsize : nat := 5000.

(** [cached_translate] under [@lru_cache(maxsize=5000)]: a hit returns
    the stored value without running the body; a miss runs the body, and
    stores its result only if it returns. *)
Definition cached_translate (text src dst : string) (st : State W)
    : result string * State W :=
  let k : key := (text, src, dst) in
  match lru_find k (cache st) with
  | Some v =>
      (Ok v, MkState (db st) (RATE_LIMIT st) (lru_touch k v (cache st))
                     (world st) (calls st) (sent st))
  | None =>
      let '(r, w') := gt_translate (world st) src dst text in
      let calls' := calls st ++ [k] in
      match r with
      | Raise e =>
          (Raise e, MkState (db st) (RATE_LIMIT st) (cache st)
                            w' calls' (sent st))
      | Ok v =>
          (Ok v, MkState (db st) (RATE_LIMIT st)
                         (lru_store maxsize k v (cache st))
                         w' calls' (sent st))
      end
  end.

(** [translate_async] runs [cached_translate] on a worker and awaits it:
    the same result, and an exception of the worker is raised at the
    [await]. *)
Definition translate_async (text src dst : string) (st : State W)
    : result string * State W :=
  cached_translate text src dst st.

(** The key [f"{chat_id}:{user_id}"]. *)
Definition rate_key (chat_id user_id : Z) : string :=
  str_of_int chat_id +:+ ":" +:+ str_of_int user_id.

(** The text [f"🌐 {src.upper()} → {dst.upper()}\n{translated}"]. *)
Definition reply_of (src dst translated : string) : string :=
  "🌐 " +:+ upper src +:+ " → " +:+ upper dst
    +:+ String "010"%char translated.

(** [handle_message], with [now] the reading [time.time()] gives if
    [is_rate_limited] is reached. *)
Definition handle_message (now : Q) (update : Update) (st : State W)
    : result unit * State W :=
  match effective_message update with
  | None => (Ok tt, st)
  | Some message =>
      let chat_id := effective_chat_id update in
      let user_id := effective_user_id update in
      if negb (chat_enabled chat_id (db st))
         || negb (user_enabled user_id (db st))
      then (Ok tt, st)
      else
        let '(limited, rl) :=
          is_rate_limited now (rate_key chat_id user_id) (RATE_LIMIT st) in
        let st1 := set_RATE_LIMIT rl st in
        if limited then (Ok tt, st1)
        else
          let text := or_ (text message) (caption message) in
          match text with
          | None => (Ok tt, st1)
          | Some s =>
              if negb (truthy text) || negb (has_text s) then (Ok tt, st1)
              else
                let '(src, w) := detect_lang s (world st1) in
                let st2 := set_world w st1 in
                let dst := chat_target chat_id (db st2) in
                if String.eqb src dst then (Ok tt, st2)
                else
                  match translate_async s src dst st2 with
                  | (Raise e, st3) => (Raise e, st3)
                  | (Ok translated, st3) =>
                      (Ok tt, reply_text (reply_of src dst translated) st3)
                  end
          end
  end.

End Pipeline.

(** ** Notions of the specification *)

(** Every stored target language is a key of [SUPPORTED_LANGUAGES]. *)
Definition targets_supported (db : DB) : Prop :=
  map_Forall (λ _ row, is_supported (target_lang row) = true) (chat_settings db).

Section Gates.

Context {W : Type} `{GT : GoogleTranslator W} `{UT : UnicodeTables}.

(** The textual payload of a message is absent: [text or caption] is
    [None] or empty. *)
Definition no_payload (message : Message) : Prop :=
  truthy (or_ (text message) (caption message)) = false.

(** The update passes every gate before language detection, with payload
    [s]: there is a message, the chat and the user are enabled, the
    admission check at [now] allows it, and the payload is non-empty and
    holds a word character. *)
Definition passes_gates (now : Q) (update : Update) (st : State W)
    (s : string) : Prop :=
  ∃ message,
    effective_message update = Some message
    ∧ chat_enabled (effective_chat_id update) (db st) = true
    ∧ user_enabled (effective_user_id update) (db st) = true
    ∧ fst (is_rate_limited now
             (rate_key (effective_chat_id update) (effective_user_id update))
             (RATE_LIMIT st)) = false
    ∧ or_ (text message) (caption message) = Some s
    ∧ s ≠ ""%string
    ∧ has_text s = true.

(** The state the admission check leaves. *)
Definition admitted (now : Q) (update : Update) (st : State W) : State W :=
  set_RATE_LIMIT
    (snd (is_rate_limited now
            (rate_key (effective_chat_id update) (effective_user_id update))
            (RATE_LIMIT st)))
    st.

(** The detected source language of [s], and the state in which the
    translation is requested. *)
Definition detected (now : Q) (update : Update) (st : State W) (s : string)
    : string * State W :=
  let st1 := admitted now update st in
  let '(src, w) := detect_lang s (world st1) in
  (src, set_world w st1).

End Gates.

(** ** The listing command *)

(** [sep.join(items)]. *)
Fixpoint join (sep : string) (items : list string) : string :=
  match items with
  | [] => ""
  | [x] => x
  | x :: items' => x +:+ sep +:+ join sep items'
  end.

(** The item [f"{name} ({code})"] of one language. *)
Definition language_item (cn : string * string) : string :=
  cn.2 +:+ " (" +:+ cn.1 +:+ ")".

(** [languages_command]: the text it passes to [reply_text]. *)
Definition languages_command (update : Update) : string :=
  let langs := join ", " (map language_item SUPPORTED_LANGUAGES) in
  "🌍 Supported Languages:" +:+ String "010"%char langs.

(** ** Sessions and invariants *)

(** A string without the separator of [rate_key]. *)
Fixpoint colon_free (s : string) : Prop :=
  match s with
  | EmptyString => True
  | String c s' => c ≠ ":"%char ∧ colon_free s'
  end.

(** The process state with another database (a command ran). *)
Definition set_db {W} (d : DB) (st : State W) : State W :=
  MkState d (RATE_LIMIT st) (cache st) (world st) (calls st) (sent st).

(** The cache holds at most [maxsize] entries, one per key. *)
Definition cache_ok (c : list (key * string)) : Prop :=
  (length c <= maxsize)%nat ∧ NoDup (c.*1).

(** Every stored flag is 0 or 1, and a row whose flag is 0 holds the
    default target language. *)
Definition rows_canonical (db : DB) : Prop :=
  map_Forall (λ _ row, enabled row = 1
                       ∨ (enabled row = 0 ∧ target_lang row = "en"%string))
             (chat_settings db).

Section Sessions.

Context {W : Type} `{GT : GoogleTranslator W} `{UT : UnicodeTables}.

(** Updates handled one after the other on the state of the process, each
    with the clock reading of its admission check; an update whose handler
    raised leaves the state it reached. *)
Fixpoint handle_messages (evs : list (Q * Update)) (st : State W) : State W :=
  match evs with
  | [] => st
  | (now, update) :: evs' =>
      handle_messages evs' (snd (handle_message now update st))
  end.

End Sessions.

(** ** Sample inputs *)

Module Samples.

(** A provider that detects English and whose translation call always
    fails. *)
Definition failing_provider : GoogleTranslator unit := {|
  gt_detect := λ w _, (Ok "en"%string, w);
  gt_translate := λ w _ _ _, (Raise (Exception "quota exceeded"), w)
|}.

(** A provider that detects English and answers every translation. *)
Definition working_provider : GoogleTranslator unit := {|
  gt_detect := λ w _, (Ok "en"%string, w);
  gt_translate := λ w _ _ _, (Ok "Hola mundo"%string, w)
|}.

(** No word character outside ASCII. *)
Definition ascii_only : UnicodeTables := {| unicode_word := λ _, false |}.

(** Case tables that change nothing outside ASCII. *)
Definition ascii_case : UnicodeCase := {| unicode_lower := λ s, s |}.

(** A command or message in chat 7 from user 9. *)
Definition in_chat7 (m : Message) : Update := MkUpdate (Some m) 7 9.

Definition hello : Message := MkMessage (Some "Hello world"%string) None.

(** A photo without caption. *)
Definition bare_photo : Message := MkMessage None None.

(** The database after [/setlang es] in chat 7. *)
Definition db_es : DB :=
  fst (@setlang ascii_case (in_chat7 hello) ["es"%string] empty_db).

Definition init_es : State unit := MkState db_es ∅ [] tt [] [].

(** The state after the sample message was translated once, at time 100. *)
Definition after_hello : State unit :=
  snd (@handle_message unit working_provider ascii_only
         100 (in_chat7 hello) init_es).

(** A full cache: 5000 entries with distinct two-byte texts, the one of
    index 0 least recently used. *)
Definition sample_key (i : nat) : key :=
  (String (ascii_of_nat (i / 256)) (String (ascii_of_nat (i mod 256)) ""),
   "en"%string, "es"%string).

Definition full_cache : list (key * string) :=
  map (λ i, (sample_key i, "x"%string)) (seq 0 5000).

Definition full_state : State unit := MkState empty_db ∅ full_cache tt [] [].

End Samples.

Import Samples.

(** * Properties *)

#[local] Arguments dict_get : simpl never.

(** ** The policy store *)

Lemma replace_chat_lookup chat_id en tl (t : gmap Z chat_row) :
  replace_into_chat_settings chat_id en tl t !! chat_id
  = Some (ChatRow (default DEFAULT_enabled en) (default DEFAULT_target_lang tl)).
Proof. unfold replace_into_chat_settings. apply lookup_insert_eq. Qed.

Lemma replace_chat_other chat_id c en tl (t : gmap Z chat_row) :
  c ≠ chat_id → replace_into_chat_settings chat_id en tl t !! c = t !! c.
Proof.
  intros Hne. unfold replace_into_chat_settings.
  rewrite lookup_insert_ne by congruence.
  apply lookup_delete_ne. congruence.
Qed.

Lemma dict_get_supported lang name :
  dict_get SUPPORTED_LANGUAGES lang = Some name → is_supported lang = true.
Proof. unfold is_supported. intros ->. reflexivity. Qed.

Lemma replace_chat_targets_supported chat_id en tl (t : gmap Z chat_row) :
  is_supported (default DEFAULT_target_lang tl) = true →
  map_Forall (λ _ row, is_supported (target_lang row) = true) t →
  map_Forall (λ _ row, is_supported (target_lang row) = true)
             (replace_into_chat_settings chat_id en tl t).
Proof.
  intros Hs Ht c row Hrow.
  destruct (decide (c = chat_id)) as [->|Hne].
  - rewrite replace_chat_lookup in Hrow. by inversion Hrow.
  - rewrite replace_chat_other in Hrow by done. by apply (Ht c).
Qed.

Lemma run_command_targets_supported {UC : UnicodeCase} db uc :
  targets_supported db → targets_supported (run_command db uc).
Proof.
  destruct uc as [update c]. unfold targets_supported. intros Hdb.
  destruct c as [ | | | |args]; simpl; try done.
  - by apply replace_chat_targets_supported.
  - by apply replace_chat_targets_supported.
  - unfold setlang. destruct args as [|arg0 rest]; [done|].
    destruct (dict_get SUPPORTED_LANGUAGES (lower arg0)) as [name|] eqn:Hget;
      [|done].
    simpl. apply replace_chat_targets_supported; [|done].
    simpl. by eapply dict_get_supported.
Qed.

Lemma run_commands_targets_supported {UC : UnicodeCase} cmds db :
  targets_supported db → targets_supported (run_commands cmds db).
Proof.
  unfold run_commands. revert db.
  induction cmds as [|uc cmds IH]; intros db Hdb; simpl; [done|].
  apply IH. by apply run_command_targets_supported.
Qed.

(** C1: the code breaks the claim. Each write names only the column it
    sets, but REPLACE puts the other column back to its default: after
    [/setlang fr] and then [/translate_off] in the same chat the stored
    row holds the target language ["en"], not ["fr"]; and after
    [/translate_off] and then [/setlang fr] the stored flag is 1 again,
    so the chat is enabled. *)
Lemma chat_write_clobbers_other_field :
  let upd := in_chat7 hello in
  let db1 := fst (@setlang ascii_case upd ["fr"%string] empty_db) in
  let db2 := fst (translate_off upd db1) in
  let db3 := fst (@setlang ascii_case upd ["fr"%string]
                    (fst (translate_off upd empty_db))) in
  chat_target 7 db1 = "fr"%string
  ∧ chat_settings db2 !! 7 = Some (ChatRow 0 "en")
  ∧ chat_target 7 db2 ≠ "fr"%string
  ∧ chat_settings db3 !! 7 = Some (ChatRow 1 "fr")
  ∧ chat_enabled 7 db3 = true.
Proof. vm_compute. repeat split; congruence. Qed.

(** What a write to [chat_settings] does as the code stands: it replaces
    the whole row of its chat. The row afterwards holds the written field
    and the column default of the other one, whatever was stored before;
    rows of other chats and the user table are left as they were. *)
Theorem chat_write_replaces_row
    {UC : UnicodeCase} (db : DB) (update : Update) :
  let chat_id := effective_chat_id update in
  chat_settings (fst (translate_on update db)) !! chat_id
    = Some (ChatRow 1 "en")
  ∧ chat_settings (fst (translate_off update db)) !! chat_id
    = Some (ChatRow 0 "en")
  ∧ (∀ arg0 rest, is_supported (lower arg0) = true →
       chat_settings (fst (setlang update (arg0 :: rest) db)) !! chat_id
       = Some (ChatRow 1 (lower arg0)))
  ∧ (∀ c cmd, c ≠ chat_id →
       chat_settings (run_command db (update, cmd)) !! c
       = chat_settings db !! c)
  ∧ (∀ cmd, cmd = TranslateOn ∨ cmd = TranslateOff ∨ (∃ a, cmd = SetLang a) →
       user_settings (run_command db (update, cmd)) = user_settings db).
Proof.
  simpl. repeat split.
  - apply replace_chat_lookup.
  - apply replace_chat_lookup.
  - intros arg0 rest Hs. unfold setlang, is_supported in *.
    destruct (dict_get SUPPORTED_LANGUAGES (lower arg0)); [|done].
    simpl. apply replace_chat_lookup.
  - intros c cmd Hne.
    destruct cmd as [ | | | |args]; simpl; try done;
      try by apply replace_chat_other.
    unfold setlang. destruct args as [|arg0 rest]; [done|].
    destruct (dict_get SUPPORTED_LANGUAGES (lower arg0)); [|done].
    simpl. by apply replace_chat_other.
  - intros cmd [->|[->|[args ->]]]; simpl; try done.
    unfold setlang. destruct args as [|arg0 rest]; [done|].
    by destruct (dict_get SUPPORTED_LANGUAGES (lower arg0)).
Qed.

Lemma chat_write_replaces_row_witness :
  is_supported (@lower ascii_case "FR") = true
  ∧ chat_settings (fst (@setlang ascii_case (in_chat7 hello) ["FR"%string]
                          (fst (translate_off (in_chat7 hello) empty_db))))
      !! 7 = Some (ChatRow 1 "fr").
Proof.
  split; [reflexivity|].
  apply (@chat_write_replaces_row ascii_case
           (fst (translate_off (in_chat7 hello) empty_db)) (in_chat7 hello)).
  reflexivity.
Defined.

(** C7: [/setlang] with an argument whose code (the argument as
    [str.lower()] gives it, which is what the command reads; outside ASCII
    whatever the Unicode tables make of it) is not a key of the 30-entry
    [SUPPORTED_LANGUAGES] answers with the rejection text and leaves the
    database as it was; and whatever commands have run since the database
    was created, every stored target language is a supported code. *)
Theorem setlang_unsupported_refused
    {UC : UnicodeCase}
    (db : DB) (update : Update) (arg0 : string) (rest : list string) :
  length SUPPORTED_LANGUAGES = 30%nat
  ∧ NoDup (SUPPORTED_LANGUAGES.*1)
  ∧ (is_supported (lower arg0) = false →
       setlang update (arg0 :: rest) db = (db, unsupported_reply))
  ∧ (∀ cmds chat_id row,
       chat_settings (run_commands cmds empty_db) !! chat_id = Some row →
       is_supported (target_lang row) = true)
  ∧ (∀ cmds, is_supported (chat_target (effective_chat_id update)
                             (run_commands cmds empty_db)) = true).
Proof.
  assert (Hinv : ∀ cmds, targets_supported (run_commands cmds empty_db)).
  { intros cmds. apply run_commands_targets_supported.
    unfold targets_supported, empty_db. simpl. apply map_Forall_empty. }
  split; [reflexivity|]. split; [|split; [|split]].
  - apply (bool_decide_unpack (NoDup (SUPPORTED_LANGUAGES.*1))).
    vm_compute. exact I.
  - unfold setlang, is_supported.
    by destruct (dict_get SUPPORTED_LANGUAGES (lower arg0)).
  - intros cmds chat_id row Hrow. by apply (Hinv cmds chat_id).
  - intros cmds. unfold chat_target.
    destruct (chat_settings _ !! _) as [row|] eqn:Hrow; [|reflexivity].
    by apply (Hinv cmds (effective_chat_id update)).
Qed.

(** An argument outside ASCII is accepted when the Unicode tables
    lower-case it to a supported code, as they do for the Kelvin sign
    followed by [o]: the code stored is the lower-cased one. *)
Lemma setlang_unicode_argument
    {UC : UnicodeCase} (db : DB) (update : Update) (arg0 : string) :
  is_ascii arg0 = false →
  unicode_lower arg0 = "ko"%string →
  chat_target (effective_chat_id update) (fst (setlang update [arg0] db))
  = "ko"%string.
Proof.
  intros Hascii Hlow. unfold setlang, lower. rewrite Hascii, Hlow.
  simpl. unfold chat_target. simpl. by rewrite replace_chat_lookup.
Qed.

Lemma setlang_unsupported_refused_witness :
  is_supported (@lower ascii_case "xx") = false
  ∧ @setlang ascii_case (in_chat7 hello) ["xx"%string] db_es
    = (db_es, unsupported_reply).
Proof.
  split; [reflexivity|].
  apply (@setlang_unsupported_refused ascii_case
           db_es (in_chat7 hello) "xx" []).
  reflexivity.
Defined.

(** ** The admission controller *)


Lemma is_rate_limited_reject now key (m : gmap string Q) :
  (now - default 0%Q (m !! key) < RATE_SECONDS)%Q →
  is_rate_limited now key m = (true, m).
Proof.
  intros Hlt. unfold is_rate_limited.
  destruct (Qlt_le_dec _ _) as [_|Hle]; [reflexivity|].
  exfalso. exact (Qlt_not_le _ _ Hlt Hle).
Qed.




(** ** The translation cache *)

Lemma lru_find_app k (c1 c2 : entries) :
  lru_find k (c1 ++ c2)
  = match lru_find k c1 with Some v => Some v | None => lru_find k c2 end.
Proof.
  induction c1 as [|[k' v'] c1 IH]; simpl; [done|].
  by destruct (decide (k = k')).
Qed.

Lemma lru_find_self k v : lru_find k [(k, v)] = Some v.
Proof. simpl. by destruct (decide (k = k)). Qed.

Lemma lru_find_filter_out k (c : entries) :
  lru_find k (filter (λ e, e.1 ≠ k) c) = None.
Proof.
  induction c as [|[k' v'] c IH]; [done|].
  rewrite filter_cons. simpl.
  destruct (decide (k' ≠ k)) as [Hne|Heq]; [|done].
  simpl. destruct (decide (k = k')); [congruence|done].
Qed.

Lemma lru_find_tail k (c : entries) :
  lru_find k c = None → lru_find k (tail c) = None.
Proof.
  destruct c as [|[k' v'] c]; simpl; [done|].
  by destruct (decide (k = k')).
Qed.

Lemma lru_find_touch k v (c : entries) : lru_find k (lru_touch k v c) = Some v.
Proof.
  unfold lru_touch. rewrite lru_find_app, lru_find_filter_out.
  apply lru_find_self.
Qed.

Lemma lru_find_store n k v (c : entries) :
  n ≠ 0%nat → lru_find k c = None → lru_find k (lru_store n k v c) = Some v.
Proof.
  intros Hn Hnone. unfold lru_store.
  destruct (Nat.eqb_spec n 0) as [|_]; [done|].
  destruct (n <=? length c)%nat; rewrite lru_find_app.
  - rewrite (lru_find_tail _ _ Hnone). apply lru_find_self.
  - rewrite Hnone. apply lru_find_self.
Qed.

(** The cache never grows beyond its capacity. *)
Lemma lru_store_length n k v (c : entries) :
  (length c <= n)%nat → (length (lru_store n k v c) <= n)%nat.
Proof.
  intros Hlen. unfold lru_store.
  destruct (Nat.eqb_spec n 0) as [|Hn]; [done|].
  destruct (Nat.leb_spec n (length c)) as [Hfull|Hroom];
    rewrite length_app; simpl.
  - destruct c; simpl in *; lia.
  - lia.
Qed.

Section CacheProperties.

Context {W : Type} `{GT : GoogleTranslator W}.

(** A call whose key is cached returns the stored value and does not
    reach the provider. *)
Lemma cached_translate_hit text src dst (st : State W) v :
  lru_find (text, src, dst) (cache st) = Some v →
  ∃ st', cached_translate text src dst st = (Ok v, st')
         ∧ calls st' = calls st ∧ world st' = world st
         ∧ sent st' = sent st ∧ db st' = db st
         ∧ RATE_LIMIT st' = RATE_LIMIT st
         ∧ lru_find (text, src, dst) (cache st') = Some v.
Proof.
  intros Hhit. unfold cached_translate. rewrite Hhit.
  eexists. split; [reflexivity|]. simpl.
  repeat split. apply lru_find_touch.
Qed.

(** A call whose key is not cached calls the provider once, with the
    arguments of the call. *)
Lemma cached_translate_miss text src dst (st : State W) :
  lru_find (text, src, dst) (cache st) = None →
  ∃ st', cached_translate text src dst st
         = (fst (gt_translate (world st) src dst text), st')
         ∧ calls st' = calls st ++ [(text, src, dst)]
         ∧ world st' = snd (gt_translate (world st) src dst text)
         ∧ sent st' = sent st ∧ db st' = db st
         ∧ RATE_LIMIT st' = RATE_LIMIT st
         ∧ cache st'
           = match fst (gt_translate (world st) src dst text) with
             | Ok v => lru_store maxsize (text, src, dst) v (cache st)
             | Raise _ => cache st
             end.
Proof.
  intros Hmiss. unfold cached_translate. rewrite Hmiss.
  destruct (gt_translate (world st) src dst text) as [[v|e] w'];
    eexists; (split; [reflexivity|]); simpl; repeat split.
Qed.

(** C5: when the key is not cached and the provider call fails, the
    failure reaches the caller, the cache is what it was (the key still
    absent), and the next call with the same arguments calls the
    provider again and returns that call's own outcome. *)
Theorem cached_translate_failure_not_stored
    (text src dst : string) (st : State W) (e : exn) (w' : W) :
  lru_find (text, src, dst) (cache st) = None →
  gt_translate (world st) src dst text = (Raise e, w') →
  ∃ st1, cached_translate text src dst st = (Raise e, st1)
    ∧ cache st1 = cache st
    ∧ lru_find (text, src, dst) (cache st1) = None
    ∧ calls st1 = calls st ++ [(text, src, dst)]
    ∧ fst (cached_translate text src dst st1)
      = fst (gt_translate w' src dst text)
    ∧ calls (snd (cached_translate text src dst st1))
      = calls st1 ++ [(text, src, dst)].
Proof.
  intros Hmiss Hfail.
  destruct (cached_translate_miss text src dst st Hmiss)
    as (st1 & Hcall & Hcalls & Hworld & _ & _ & _ & Hcache).
  rewrite Hfail in Hcall, Hworld, Hcache. simpl in *.
  exists st1. split; [done|]. split; [done|].
  assert (Hmiss1 : lru_find (text, src, dst) (cache st1) = None)
    by (by rewrite Hcache).
  split; [done|]. split; [done|].
  destruct (cached_translate_miss text src dst st1 Hmiss1)
    as (st2 & Hcall2 & Hcalls2 & _).
  rewrite Hcall2, Hworld. simpl. by split.
Qed.

(** C6: when a call of [cached_translate] returns a value, the call
    right after it with the same arguments returns the same value
    without calling the provider; over the two calls the provider is
    called at most once, and then with the arguments of the call. *)
Theorem cached_translate_twice
    (text src dst : string) (st st1 : State W) (v1 : string) :
  cached_translate text src dst st = (Ok v1, st1) →
  ∃ st2, cached_translate text src dst st1 = (Ok v1, st2)
    ∧ calls st2 = calls st1
    ∧ (calls st1 = calls st ∨ calls st1 = calls st ++ [(text, src, dst)])
    ∧ (length (calls st2) <= length (calls st) + 1)%nat.
Proof.
  intros Hfirst.
  assert (Hstored : lru_find (text, src, dst) (cache st1) = Some v1
                    ∧ (calls st1 = calls st
                       ∨ calls st1 = calls st ++ [(text, src, dst)])).
  { destruct (lru_find (text, src, dst) (cache st)) as [v|] eqn:Hfind.
    - destruct (cached_translate_hit text src dst st v Hfind)
        as (st' & Hcall & Hcalls & _ & _ & _ & _ & Hfind').
      rewrite Hcall in Hfirst. inversion Hfirst; subst. auto.
    - destruct (cached_translate_miss text src dst st Hfind)
        as (st' & Hcall & Hcalls & _ & _ & _ & _ & Hcache).
      rewrite Hcall in Hfirst. inversion Hfirst as [[Hres Hst]]. subst st'.
      rewrite Hres in Hcache. split; [|auto].
      rewrite Hcache. by apply lru_find_store. }
  destruct Hstored as [Hfind1 Hcalls1].
  destruct (cached_translate_hit text src dst st1 v1 Hfind1)
    as (st2 & Hcall2 & Hcalls2 & _).
  exists st2. split; [done|]. split; [done|]. split; [done|].
  rewrite Hcalls2.
  destruct Hcalls1 as [->| ->]; [lia|]. rewrite length_app. simpl. lia.
Qed.

End CacheProperties.

Lemma cached_translate_failure_not_stored_witness :
  ∃ st1 : State unit,
    @cached_translate unit failing_provider "Hello world" "en" "es" init_es
      = (Raise (Exception "quota exceeded"), st1)
    ∧ cache st1 = []
    ∧ calls st1 = [("Hello world", "en", "es")]%string.
Proof.
  destruct (@cached_translate_failure_not_stored unit failing_provider
              "Hello world" "en" "es" init_es
              (Exception "quota exceeded") tt eq_refl eq_refl)
    as (st1 & Hcall & Hcache & _ & Hcalls & _).
  exists st1. repeat split; assumption.
Defined.

Lemma cached_translate_twice_witness :
  ∃ st2 : State unit,
    @cached_translate unit working_provider "Hello world" "en" "es"
      (snd (@cached_translate unit working_provider
              "Hello world" "en" "es" init_es))
      = (Ok "Hola mundo"%string, st2)
    ∧ calls st2 = [("Hello world", "en", "es")]%string.
Proof.
  destruct (@cached_translate_twice unit working_provider
              "Hello world" "en" "es" init_es
              (snd (@cached_translate unit working_provider
                      "Hello world" "en" "es" init_es))
              "Hola mundo" eq_refl)
    as (st2 & Hcall & Hcalls & _).
  exists st2. split; [exact Hcall|]. rewrite Hcalls. reflexivity.
Defined.

(** ** The message handler *)

Section HandlerProperties.

Context {W : Type} `{GT : GoogleTranslator W} `{UT : UnicodeTables}.

Lemma truthy_nonempty s : s ≠ ""%string → truthy (Some s) = true.
Proof.
  intros Hne. simpl. by destruct (String.eqb_spec s "").
Qed.

(** Past the gates the handler is detection, the comparison of the two
    codes, the cached translation and the reply. *)
Lemma handle_message_passes now update (st : State W) s :
  passes_gates now update st s →
  handle_message now update st
  = let '(src, st2) := detected now update st s in
    let dst := chat_target (effective_chat_id update) (db st) in
    if String.eqb src dst then (Ok tt, st2)
    else match cached_translate s src dst st2 with
         | (Raise e, st3) => (Raise e, st3)
         | (Ok translated, st3) =>
             (Ok tt, reply_text (reply_of src dst translated) st3)
         end.
Proof.
  intros (message & Hmsg & Hce & Hue & Hrl & Hor & Hne & Hht).
  unfold handle_message, detected, admitted.
  rewrite Hmsg, Hce, Hue. simpl.
  destruct (is_rate_limited _ _ _) as [limited rl] eqn:E.
  simpl in Hrl. subst limited. simpl.
  rewrite Hor, (truthy_nonempty s Hne), Hht. simpl.
  by destruct (detect_lang s (world st)) as [src w].
Qed.

Lemma detected_frame now update (st : State W) s src st2 :
  detected now update st s = (src, st2) →
  src = fst (detect_lang s (world st))
  ∧ sent st2 = sent st ∧ calls st2 = calls st ∧ cache st2 = cache st
  ∧ db st2 = db st.
Proof.
  unfold detected, admitted. simpl.
  destruct (detect_lang s (world st)) as [src' w]. intros Heq.
  inversion Heq; subst. simpl. repeat split.
Qed.

(** C8: past the gates, when the detected source code equals the chat's
    target code as a string - also when detection failed and the code is
    the sentinel ["auto"] - the handler returns without a reply, without
    calling the translation provider and without touching the cache. *)
Theorem same_language_dropped
    (now : Q) (update : Update) (st : State W) (s : string) :
  passes_gates now update st s →
  fst (detect_lang s (world st))
    = chat_target (effective_chat_id update) (db st)
  ∨ ((∃ e, fst (gt_detect (world st) s) = Raise e)
     ∧ chat_target (effective_chat_id update) (db st) = "auto"%string) →
  ∃ st', handle_message now update st = (Ok tt, st')
    ∧ sent st' = sent st
    ∧ calls st' = calls st
    ∧ cache st' = cache st.
Proof.
  intros Hgates Hsame.
  assert (Heq : fst (detect_lang s (world st))
                = chat_target (effective_chat_id update) (db st)).
  { destruct Hsame as [Heq|[[e He] Hauto]]; [done|].
    rewrite Hauto. unfold detect_lang.
    destruct (gt_detect (world st) s) as [r w']. simpl in He. by subst r. }
  rewrite (handle_message_passes _ _ _ _ Hgates).
  destruct (detected now update st s) as [src st2] eqn:Hdet.
  destruct (detected_frame _ _ _ _ _ _ Hdet) as (Hsrc & Hsent & Hcalls & Hcache & _).
  simpl. rewrite Hsrc, Heq, String.eqb_refl.
  by exists st2.
Qed.

(** C9, amended: past the gates, with source and target codes that
    differ, the handler asks [cached_translate] for exactly the payload,
    the detected source and the chat's target. When that call returns a
    text, exactly one reply is sent, the globe sign followed by the two
    codes in upper case around an arrow, a line break and the text; the
    provider itself was called, with exactly these three arguments, when
    the triple was not in the cache, and not at all when it was. When the
    triple is not cached and the provider's call raises, no reply is sent
    and the handler raises. *)
Theorem translation_replied
    (now : Q) (update : Update) (st st2 : State W) (s src : string) :
  let dst := chat_target (effective_chat_id update) (db st) in
  passes_gates now update st s →
  detected now update st s = (src, st2) →
  src ≠ dst →
  handle_message now update st
    = match cached_translate s src dst st2 with
      | (Ok translated, st3) =>
          (Ok tt, reply_text (reply_of src dst translated) st3)
      | (Raise e, st3) => (Raise e, st3)
      end
  ∧ (∀ translated st3,
       cached_translate s src dst st2 = (Ok translated, st3) →
       handle_message now update st
         = (Ok tt, reply_text (reply_of src dst translated) st3)
       ∧ sent (reply_text (reply_of src dst translated) st3)
         = sent st ++ [reply_of src dst translated]
       ∧ match lru_find (s, src, dst) (cache st) with
         | Some v => translated = v ∧ calls st3 = calls st
         | None => calls st3 = calls st ++ [(s, src, dst)]
                   ∧ fst (gt_translate (world st2) src dst s) = Ok translated
         end)
  ∧ (∀ e w',
       lru_find (s, src, dst) (cache st) = None →
       gt_translate (world st2) src dst s = (Raise e, w') →
       fst (handle_message now update st) = Raise e
       ∧ sent (snd (handle_message now update st)) = sent st
       ∧ calls (snd (handle_message now update st))
         = calls st ++ [(s, src, dst)])
  ∧ (∀ translated,
       reply_of "en" "es" translated
       = ("🌐 EN → ES" +:+ String "010"%char translated)%string).
Proof.
  intros dst Hgates Hdet Hne.
  destruct (detected_frame _ _ _ _ _ _ Hdet) as (_ & Hsent & Hcalls & Hcache & _).
  assert (Hrun : handle_message now update st
                 = match cached_translate s src dst st2 with
                   | (Ok translated, st3) =>
                       (Ok tt, reply_text (reply_of src dst translated) st3)
                   | (Raise e, st3) => (Raise e, st3)
                   end).
  { rewrite (handle_message_passes _ _ _ _ Hgates), Hdet.
    cbv beta iota zeta. fold dst.
    destruct (String.eqb_spec src dst) as [|_]; [done|].
    by destruct (cached_translate s src dst st2) as [[tr|e] st3]. }
  split; [exact Hrun|]. split; [|split].
  - intros translated st3 Htr. split; [by rewrite Hrun, Htr|].
    rewrite <- Hsent, <- Hcache, <- Hcalls.
    destruct (lru_find (s, src, dst) (cache st2)) as [v|] eqn:Hfind.
    + destruct (cached_translate_hit _ _ _ _ _ Hfind)
        as (st' & Hcall & Hc & _ & Hs & _).
      rewrite Hcall in Htr. inversion Htr; subst. simpl. by rewrite Hs.
    + destruct (cached_translate_miss _ _ _ _ Hfind)
        as (st' & Hcall & Hc & _ & Hs & _).
      rewrite Hcall in Htr. inversion Htr; subst. simpl. by rewrite Hs.
  - intros e w' Hmiss Hfail. rewrite Hrun.
    rewrite <- Hcache in Hmiss.
    destruct (cached_translate_miss _ _ _ _ Hmiss)
      as (st' & Hcall & Hc & _ & Hs & _).
    rewrite Hfail in Hcall. simpl in Hcall. rewrite Hcall. simpl.
    split; [done|]. split; congruence.
  - reflexivity.
Qed.

(** C2, amended: past the gates, when the triple is not cached and the
    provider's translation call raises, no reply is sent and the cache is
    left as it was, and the exception leaves [handle_message]: the handler
    has no [try] around the translation, so its caller receives it. *)
Theorem translation_failure_propagates
    (now : Q) (update : Update) (st st2 : State W)
    (s src : string) (e : exn) (w' : W) :
  let dst := chat_target (effective_chat_id update) (db st) in
  passes_gates now update st s →
  detected now update st s = (src, st2) →
  src ≠ dst →
  lru_find (s, src, dst) (cache st) = None →
  gt_translate (world st2) src dst s = (Raise e, w') →
  ∃ st', handle_message now update st = (Raise e, st')
    ∧ sent st' = sent st
    ∧ cache st' = cache st.
Proof.
  intros dst Hgates Hdet Hne Hmiss Hfail.
  destruct (detected_frame _ _ _ _ _ _ Hdet) as (_ & Hsent & _ & Hcache & _).
  rewrite <- Hcache in Hmiss.
  destruct (cached_translate_miss _ _ _ _ Hmiss)
    as (st3 & Hcall & _ & _ & Hsent3 & _ & _ & Hcache3).
  rewrite Hfail in Hcall, Hcache3. simpl in Hcall, Hcache3.
  exists st3.
  rewrite (handle_message_passes _ _ _ _ Hgates), Hdet.
    cbv beta iota zeta. fold dst.
  destruct (String.eqb_spec src dst) as [|_]; [done|].
  rewrite Hcall. split; [done|]. split; congruence.
Qed.

End HandlerProperties.

Section PayloadProperties.

Context {W : Type} `{GT : GoogleTranslator W} `{UT : UnicodeTables}.

(** A message without payload is dropped at the text check, which comes
    after the policy gate and the admission check. *)
Lemma handle_message_no_payload now update (st : State W) message :
  effective_message update = Some message →
  no_payload message →
  handle_message now update st
  = (Ok tt,
     if chat_enabled (effective_chat_id update) (db st)
        && user_enabled (effective_user_id update) (db st)
     then admitted now update st
     else st).
Proof.
  intros Hmsg Hnone. unfold handle_message, admitted, no_payload in *.
  rewrite Hmsg.
  destruct (chat_enabled _ _), (user_enabled _ _); simpl; try done.
  destruct (is_rate_limited _ _ _) as [[|] rl]; simpl; [done|].
  destruct (or_ (text message) (caption message)) as [s|]; [|done].
  by rewrite Hnone.
Qed.

(** C3, amended: a message whose payload is absent gets no reply, and
    neither the provider nor the cache is touched. It is dropped at the
    text check, after the policy gate and the admission check: the
    admission dict is left as it was when the chat or the user is disabled
    or the check rejects, and holds [now] for the key of the chat and the
    user when the check allows. *)
Theorem missing_payload_dropped
    (now : Q) (update : Update) (st : State W) (message : Message) :
  let key := rate_key (effective_chat_id update) (effective_user_id update) in
  let enabled := chat_enabled (effective_chat_id update) (db st)
                 && user_enabled (effective_user_id update) (db st) in
  let limited := fst (is_rate_limited now key (RATE_LIMIT st)) in
  effective_message update = Some message →
  no_payload message →
  ∃ st', handle_message now update st = (Ok tt, st')
    ∧ sent st' = sent st
    ∧ calls st' = calls st
    ∧ cache st' = cache st
    ∧ world st' = world st
    ∧ (enabled = false ∨ limited = true → RATE_LIMIT st' = RATE_LIMIT st)
    ∧ (enabled = true → limited = false →
         RATE_LIMIT st' = <[key := now]> (RATE_LIMIT st)).
Proof.
  intros key enabled limited Hmsg Hnone.
  rewrite (handle_message_no_payload _ _ _ _ Hmsg Hnone).
  fold enabled. eexists. split; [reflexivity|].
  unfold limited, admitted. fold key.
  destruct enabled; simpl; repeat split; try done.
  - intros [?|Hlim]; [done|]. unfold is_rate_limited in *.
    by destruct (Qlt_le_dec _ _).
  - intros _ Hlim. unfold is_rate_limited in *.
    by destruct (Qlt_le_dec _ _).
Qed.

(** C10: when the text field is non-empty the payload is the text and the
    caption plays no part in what the handler does; when the text field is
    absent or empty the payload is the caption. The payload so chosen is
    the very string the handler works on: past the gates its language is
    detected, and when the source differs from the target and the triple
    is not cached, the provider is asked to translate that string, and
    the reply carries what the provider returned for it. *)
Theorem text_preferred_over_caption
    (now : Q) (st : State W) (chat_id user_id : Z) (tx cap : option string) :
  (truthy tx = true →
     or_ tx cap = tx
     ∧ handle_message now (MkUpdate (Some (MkMessage tx cap)) chat_id user_id) st
       = handle_message now (MkUpdate (Some (MkMessage tx None)) chat_id user_id) st)
  ∧ (truthy tx = false →
     or_ tx cap = cap
     ∧ handle_message now (MkUpdate (Some (MkMessage tx cap)) chat_id user_id) st
       = handle_message now (MkUpdate (Some (MkMessage cap None)) chat_id user_id) st)
  ∧ (or_ tx cap ≠ tx → tx = None ∨ tx = Some ""%string)
  ∧ (∀ s,
       (truthy tx = true ∧ tx = Some s)
       ∨ (truthy tx = false ∧ cap = Some s ∧ s ≠ ""%string) →
       chat_enabled chat_id (db st) = true →
       user_enabled user_id (db st) = true →
       fst (is_rate_limited now (rate_key chat_id user_id) (RATE_LIMIT st))
         = false →
       has_text s = true →
       let update := MkUpdate (Some (MkMessage tx cap)) chat_id user_id in
       let src := fst (detect_lang s (world st)) in
       let w := snd (detect_lang s (world st)) in
       let dst := chat_target chat_id (db st) in
       handle_message now update st
         = (if String.eqb src dst
            then (Ok tt, set_world w (admitted now update st))
            else match cached_translate s src dst
                         (set_world w (admitted now update st)) with
                 | (Raise e, st3) => (Raise e, st3)
                 | (Ok translated, st3) =>
                     (Ok tt, reply_text (reply_of src dst translated) st3)
                 end)
       ∧ (src ≠ dst →
          lru_find (s, src, dst) (cache st) = None →
          calls (snd (handle_message now update st))
            = calls st ++ [(s, src, dst)]
          ∧ ∀ translated,
              fst (gt_translate w src dst s) = Ok translated →
              sent (snd (handle_message now update st))
              = sent st ++ [reply_of src dst translated])).
Proof.
  split; [|split; [|split]].
  - intros Htx. unfold handle_message, or_.
    cbn [text caption effective_message effective_chat_id effective_user_id].
    rewrite Htx. by split.
  - intros Htx. unfold handle_message, or_.
    cbn [text caption effective_message effective_chat_id effective_user_id].
    rewrite Htx. split; [done|].
    destruct cap as [c|]; [|done].
    cbn [truthy].
    destruct (String.eqb c "") eqn:Hc; cbn [negb truthy]; by rewrite ?Hc.
  - unfold or_. destruct tx as [t|]; [|auto]. simpl.
    destruct (String.eqb_spec t ""); simpl; [subst; auto|done].
  - intros s Hs Hce Hue Hadm Hht update src w dst.
    assert (Hgates : passes_gates now update st s).
    { exists (MkMessage tx cap). simpl.
      split; [done|]. split; [done|]. split; [done|]. split; [done|].
      unfold or_.
      destruct Hs as [[Htx ->]|(Htx & -> & Hne)].
      - rewrite Htx. split; [done|]. split; [|done].
        simpl in Htx. by destruct (String.eqb_spec s "").
      - by rewrite Htx. }
    assert (Hrun : handle_message now update st
              = (if String.eqb src dst
                 then (Ok tt, set_world w (admitted now update st))
                 else match cached_translate s src dst
                              (set_world w (admitted now update st)) with
                      | (Raise e, st3) => (Raise e, st3)
                      | (Ok translated, st3) =>
                          (Ok tt, reply_text (reply_of src dst translated) st3)
                      end)).
    { rewrite (handle_message_passes _ _ _ _ Hgates).
      unfold detected, src, w, dst. unfold admitted at 1. simpl world.
      by destruct (detect_lang s (world st)). }
    split; [exact Hrun|].
    intros Hne Hmiss. rewrite Hrun.
    destruct (String.eqb_spec src dst) as [|_]; [done|].
    destruct (cached_translate_miss s src dst
                (set_world w (admitted now update st)) Hmiss)
      as (st' & Hcall & Hcalls & _ & Hsent & _).
    rewrite Hcall. simpl world.
    destruct (gt_translate w src dst s) as [[tr|e] w']; simpl.
    + split; [done|]. intros translated [= ->]. by rewrite Hsent.
    + split; [done|]. by intros translated.
Qed.

End PayloadProperties.

(** ** The handler on the sample inputs *)

Lemma hello_passes_gates (st : State unit) :
  db st = db_es → RATE_LIMIT st !! "7:9"%string = None →
  @passes_gates unit ascii_only 100 (in_chat7 hello) st "Hello world".
Proof.
  intros Hdb Hrl. exists hello. rewrite Hdb.
  unfold is_rate_limited.
  replace (rate_key (effective_chat_id (in_chat7 hello))
             (effective_user_id (in_chat7 hello)))
    with "7:9"%string by reflexivity.
  rewrite Hrl. repeat split; try reflexivity. discriminate.
Defined.

(** C2, as stated, fails: with a provider whose translation call raises,
    the handler itself raises. *)
Lemma translation_failure_raises :
  let r := @handle_message unit failing_provider ascii_only
             100 (in_chat7 hello) init_es in
  calls (snd r) = [("Hello world", "en", "es")]%string
  ∧ fst (@gt_translate unit failing_provider tt "en" "es" "Hello world")
    = Raise (Exception "quota exceeded")
  ∧ fst r = Raise (Exception "quota exceeded")
  ∧ fst r ≠ Ok tt.
Proof. vm_compute. repeat split; congruence. Qed.

Lemma translation_failure_propagates_witness :
  ∃ st' : State unit,
    @handle_message unit failing_provider ascii_only
      100 (in_chat7 hello) init_es
    = (Raise (Exception "quota exceeded"), st')
    ∧ sent st' = [] ∧ cache st' = [].
Proof.
  apply (@translation_failure_propagates unit failing_provider ascii_only
           100 (in_chat7 hello) init_es
           (snd (@detected unit failing_provider 100 (in_chat7 hello) init_es
                   "Hello world"))
           "Hello world" "en" (Exception "quota exceeded") tt).
  - apply hello_passes_gates; reflexivity.
  - reflexivity.
  - vm_compute. discriminate.
  - reflexivity.
  - reflexivity.
Defined.

(** C3, as stated, fails: a photo without caption from an enabled user in
    an enabled chat has no payload, and handling it stores the time of
    the check in the admission dict. *)
Lemma missing_payload_updates_rate_limit :
  let st' := snd (@handle_message unit working_provider ascii_only
                    100 (in_chat7 bare_photo) (init tt)) in
  text bare_photo = None ∧ caption bare_photo = None
  ∧ RATE_LIMIT (init tt) !! "7:9"%string = None
  ∧ RATE_LIMIT st' !! "7:9"%string = Some 100%Q
  ∧ RATE_LIMIT st' ≠ RATE_LIMIT (init tt)
  ∧ sent st' = [].
Proof.
  vm_compute. repeat split; try congruence.
Qed.

Lemma missing_payload_dropped_witness :
  ∃ st' : State unit,
    @handle_message unit working_provider ascii_only
      100 (in_chat7 bare_photo) (init tt) = (Ok tt, st')
    ∧ sent st' = [] ∧ calls st' = [].
Proof.
  destruct (@missing_payload_dropped unit working_provider ascii_only
              100 (in_chat7 bare_photo) (init tt) bare_photo
              eq_refl eq_refl)
    as (st' & Hrun & Hsent & Hcalls & _).
  exists st'. repeat split; assumption.
Defined.

Lemma same_language_dropped_witness :
  ∃ st' : State unit,
    @handle_message unit working_provider ascii_only
      100 (in_chat7 hello) (init tt) = (Ok tt, st')
    ∧ sent st' = [] ∧ calls st' = [] ∧ cache st' = [].
Proof.
  apply (@same_language_dropped unit working_provider ascii_only
           100 (in_chat7 hello) (init tt) "Hello world").
  - exists hello. vm_compute. repeat split; try reflexivity. discriminate.
  - left. reflexivity.
Defined.

(** C9, as stated, fails: a message that passes every gate gets no reply
    when the provider's translation call raises; and when its triple is
    already cached the provider is not called for it. *)
Lemma gates_passed_without_reply_or_provider_call :
  (@passes_gates unit ascii_only 100 (in_chat7 hello) init_es "Hello world"
   ∧ fst (@detected unit failing_provider 100 (in_chat7 hello) init_es
            "Hello world") = "en"%string
   ∧ chat_target 7 (db init_es) = "es"%string
   ∧ sent (snd (@handle_message unit failing_provider ascii_only
                  100 (in_chat7 hello) init_es)) = [])
  ∧ (@passes_gates unit ascii_only 200 (in_chat7 hello) after_hello
       "Hello world"
     ∧ calls after_hello = [("Hello world", "en", "es")]%string
     ∧ calls (snd (@handle_message unit working_provider ascii_only
                     200 (in_chat7 hello) after_hello))
       = calls after_hello).
Proof.
  split; [split; [|by vm_compute]|split; [|by vm_compute]].
  - apply hello_passes_gates; reflexivity.
  - exists hello. vm_compute. repeat split; try reflexivity. discriminate.
Qed.

Lemma translation_replied_witness :
  @handle_message unit working_provider ascii_only
    100 (in_chat7 hello) init_es
  = (Ok tt, after_hello)
  ∧ sent after_hello
    = [("🌐 EN → ES" +:+ String "010"%char "Hola mundo")%string]
  ∧ calls after_hello = [("Hello world", "en", "es")]%string.
Proof.
  destruct (@translation_replied unit working_provider ascii_only
              100 (in_chat7 hello) init_es
              (snd (@detected unit working_provider 100 (in_chat7 hello)
                      init_es "Hello world"))
              "Hello world" "en")
    as (_ & Hok & _).
  - apply hello_passes_gates; reflexivity.
  - reflexivity.
  - vm_compute. discriminate.
  - destruct (Hok "Hola mundo"%string
                (snd (@cached_translate unit working_provider
                        "Hello world" "en" "es"
                        (snd (@detected unit working_provider 100
                                (in_chat7 hello) init_es "Hello world"))))
                eq_refl)
      as (Hrun & Hsent & Hcalls).
    split; [|split].
    + rewrite Hrun. reflexivity.
    + reflexivity.
    + exact (proj1 Hcalls).
Defined.

Lemma text_preferred_over_caption_witness :
  (or_ (Some "Hello world"%string) (Some "Bonjour"%string)
     = Some "Hello world"%string
   ∧ @handle_message unit working_provider ascii_only 100
       (MkUpdate (Some (MkMessage (Some "Hello world"%string)
                                  (Some "Bonjour"%string))) 7 9) init_es
     = @handle_message unit working_provider ascii_only 100
         (MkUpdate (Some (MkMessage (Some "Hello world"%string) None)) 7 9)
         init_es)
  ∧ calls (snd (@handle_message unit working_provider ascii_only 100
                  (MkUpdate (Some (MkMessage (Some "Hello world"%string)
                                             (Some "Bonjour"%string))) 7 9)
                  init_es))
    = [("Hello world", "en", "es")]%string
  ∧ calls (snd (@handle_message unit working_provider ascii_only 100
                  (MkUpdate (Some (MkMessage (Some ""%string)
                                             (Some "Bonjour"%string))) 7 9)
                  init_es))
    = [("Bonjour", "en", "es")]%string.
Proof.
  destruct (@text_preferred_over_caption unit working_provider ascii_only
              100 init_es 7 9 (Some "Hello world"%string)
              (Some "Bonjour"%string))
    as (Htext & _ & _ & Hpayload).
  destruct (@text_preferred_over_caption unit working_provider ascii_only
              100 init_es 7 9 (Some ""%string) (Some "Bonjour"%string))
    as (_ & _ & _ & Hcaption).
  split; [|split].
  - apply Htext. reflexivity.
  - apply (Hpayload "Hello world"%string); try reflexivity.
    + left. split; reflexivity.
    + vm_compute. discriminate.
  - apply (Hcaption "Bonjour"%string); try reflexivity.
    + right. split; [reflexivity|]. split; [reflexivity|discriminate].
    + vm_compute. discriminate.
Defined.

(** * Further properties of the code *)

(** ** What one handled message can change *)

Section HandlerFrame.

Context {W : Type} `{GT : GoogleTranslator W} `{UT : UnicodeTables}.

Lemma set_RATE_LIMIT_same (st : State W) :
  set_RATE_LIMIT (RATE_LIMIT st) st = st.
Proof. by destruct st. Qed.

Lemma cached_translate_frame text src dst (st : State W) :
  let st' := snd (cached_translate text src dst st) in
  db st' = db st ∧ RATE_LIMIT st' = RATE_LIMIT st ∧ sent st' = sent st
  ∧ (calls st' = calls st ∨ calls st' = calls st ++ [(text, src, dst)]).
Proof.
  unfold cached_translate.
  destruct (lru_find _ _) as [v|]; simpl; [by auto|].
  destruct (gt_translate _ _ _ _) as [[v|e] w']; simpl; by auto.
Qed.

(** The admission dict after a handled update. *)
Lemma handle_message_rate_limit now update (st : State W) :
  let st' := snd (handle_message now update st) in
  db st' = db st
  ∧ RATE_LIMIT st'
    = match effective_message update with
      | Some _ =>
          if chat_enabled (effective_chat_id update) (db st)
             && user_enabled (effective_user_id update) (db st)
          then snd (is_rate_limited now
                      (rate_key (effective_chat_id update)
                                (effective_user_id update))
                      (RATE_LIMIT st))
          else RATE_LIMIT st
      | None => RATE_LIMIT st
      end.
Proof.
  unfold handle_message.
  destruct (effective_message update) as [message|]; [|done].
  destruct (chat_enabled _ _), (user_enabled _ _); simpl; try done.
  destruct (is_rate_limited _ _ _) as [[|] rl]; simpl; [done|].
  destruct (or_ _ _) as [s|]; [|done].
  destruct (negb (truthy (Some s)) || negb (has_text s)); [done|].
  destruct (detect_lang _ _) as [src w]. simpl.
  destruct (String.eqb _ _); [done|].
  unfold translate_async.
  pose proof (cached_translate_frame s src (chat_target (effective_chat_id update) (db st))
                (set_world w (set_RATE_LIMIT rl st))) as (Hdb & Hrl & _).
  destruct (cached_translate _ _ _ _) as [[tr|e] st3]; simpl in *; by split.
Qed.

(** Whatever the update, the handler sends at most one reply, makes at
    most one translation call to the provider, and leaves the settings
    database as it is; when it raises it has sent nothing. *)
Theorem handle_message_at_most_one_reply
    (now : Q) (update : Update) (st : State W) :
  let r := handle_message now update st in
  db (snd r) = db st
  ∧ (sent (snd r) = sent st ∨ ∃ reply, sent (snd r) = sent st ++ [reply])
  ∧ (calls (snd r) = calls st ∨ ∃ k, calls (snd r) = calls st ++ [k])
  ∧ (∀ e, fst r = Raise e → sent (snd r) = sent st).
Proof.
  split; [apply handle_message_rate_limit|].
  unfold handle_message.
  destruct (effective_message update) as [message|]; [|simpl; by auto].
  destruct (_ || _); [simpl; by auto|].
  destruct (is_rate_limited _ _ _) as [[|] rl]; simpl; [by auto|].
  destruct (or_ _ _) as [s|]; [|simpl; by auto].
  destruct (negb (truthy (Some s)) || negb (has_text s)); [simpl; by auto|].
  destruct (detect_lang _ _) as [src w]. simpl.
  destruct (String.eqb _ _); [simpl; by auto|].
  unfold translate_async.
  pose proof (cached_translate_frame s src (chat_target (effective_chat_id update) (db st))
                (set_world w (set_RATE_LIMIT rl st))) as (_ & _ & Hsent & Hcalls).
  destruct (cached_translate _ _ _ _) as [[tr|e] st3]; simpl in *.
  - split; [right; eexists; by rewrite Hsent|].
    split; [destruct Hcalls; eauto|done].
  - split; [by left|]. split; [destruct Hcalls; eauto|done].
Qed.

Lemma handle_message_disabled now update (st : State W) :
  chat_enabled (effective_chat_id update) (db st) = false
  ∨ user_enabled (effective_user_id update) (db st) = false →
  handle_message now update st = (Ok tt, st).
Proof.
  unfold handle_message.
  intros [Hc|Hu]; destruct (effective_message update); try done.
  - by rewrite Hc.
  - rewrite Hu. by rewrite orb_true_r.
Qed.

(** An update without message, or in a disabled chat, or from a disabled
    user, changes nothing: no reply, no admission entry, no provider
    call. *)
Theorem handle_message_policy_drop
    (now : Q) (update : Update) (st : State W) :
  effective_message update = None
  ∨ chat_enabled (effective_chat_id update) (db st) = false
  ∨ user_enabled (effective_user_id update) (db st) = false →
  handle_message now update st = (Ok tt, st).
Proof.
  intros [Hnone|Hoff].
  - unfold handle_message. by rewrite Hnone.
  - by apply handle_message_disabled.
Qed.

(** After an update of an enabled user in an enabled chat was admitted at
    time [now], any update of the same user in the same chat less than
    [RATE_SECONDS] later is dropped and changes nothing, whatever the
    first one led to. *)
Theorem second_message_within_cooldown_dropped
    (now now' : Q) (update update' : Update) (st : State W) :
  effective_chat_id update' = effective_chat_id update →
  effective_user_id update' = effective_user_id update →
  is_Some (effective_message update) →
  chat_enabled (effective_chat_id update) (db st) = true →
  user_enabled (effective_user_id update) (db st) = true →
  fst (is_rate_limited now
         (rate_key (effective_chat_id update) (effective_user_id update))
         (RATE_LIMIT st)) = false →
  (now' - now < RATE_SECONDS)%Q →
  let st1 := snd (handle_message now update st) in
  handle_message now' update' st1 = (Ok tt, st1).
Proof.
  intros Hchat Huser [message Hmsg] Hce Hue Hadm Hlt st1.
  destruct (handle_message_rate_limit now update st) as [Hdb Hrl].
  fold st1 in Hdb, Hrl. rewrite Hmsg, Hce, Hue in Hrl. simpl in Hrl.
  assert (Hstored : RATE_LIMIT st1
                      !! rate_key (effective_chat_id update)
                                  (effective_user_id update) = Some now).
  { rewrite Hrl. unfold is_rate_limited in *.
    destruct (Qlt_le_dec _ _); [done|]. simpl. apply lookup_insert_eq. }
  unfold handle_message.
  destruct (effective_message update'); [|done].
  rewrite Hchat, Huser, Hdb, Hce, Hue. simpl.
  rewrite is_rate_limited_reject; [by rewrite set_RATE_LIMIT_same|].
  by rewrite Hstored.
Qed.

End HandlerFrame.

Lemma handle_message_policy_drop_witness :
  @handle_message unit working_provider ascii_only 100 (in_chat7 hello)
    (set_db (fst (user_off (in_chat7 hello) db_es)) init_es)
  = (Ok tt, set_db (fst (user_off (in_chat7 hello) db_es)) init_es).
Proof.
  apply (@handle_message_policy_drop unit working_provider ascii_only).
  right. right. reflexivity.
Defined.

Lemma second_message_within_cooldown_dropped_witness :
  @handle_message unit working_provider ascii_only (203 # 2)
    (in_chat7 bare_photo) after_hello
  = (Ok tt, after_hello).
Proof.
  apply (@second_message_within_cooldown_dropped unit working_provider
           ascii_only 100 (203 # 2) (in_chat7 hello) (in_chat7 bare_photo)
           init_es);
    try reflexivity.
  exists hello. reflexivity.
Defined.

(** ** Admission keys *)

Lemma pretty_N_char_colon x : pretty_N_char x ≠ ":"%char.
Proof. unfold pretty_N_char. by repeat case_match. Qed.

Lemma pretty_N_go_colon_free x : ∀ s,
  colon_free s → colon_free (pretty_N_go x s).
Proof.
  induction (N.lt_wf_0 x) as [x _ IH]. intros s Hs.
  assert (x = 0 ∨ 0 < x)%N as [->|Hpos] by lia.
  - by rewrite pretty_N_go_0.
  - rewrite pretty_N_go_step by done. apply IH.
    + by apply N.div_lt.
    + simpl. split; [apply pretty_N_char_colon|done].
Qed.

Lemma pretty_N_colon_free (x : N) : colon_free (pretty x).
Proof.
  unfold pretty, pretty_N. case_decide; [by compute|].
  by apply pretty_N_go_colon_free.
Qed.

Lemma str_of_int_colon_free (n : Z) : colon_free (str_of_int n).
Proof.
  unfold str_of_int, pretty, pretty_Z. destruct n as [|p|p].
  - by compute.
  - apply pretty_N_colon_free.
  - simpl. split; [done|]. apply pretty_N_colon_free.
Qed.

(** Two strings cut at their first colon. *)
Lemma colon_split s1 : ∀ s2 t1 t2,
  colon_free s1 → colon_free s2 →
  s1 +:+ String ":" t1 = s2 +:+ String ":" t2 → s1 = s2 ∧ t1 = t2.
Proof.
  induction s1 as [|c1 s1 IH]; intros [|c2 s2] t1 t2 H1 H2 Heq;
    simpl in *.
  - by inversion Heq.
  - inversion Heq; subst. by destruct H2.
  - inversion Heq; subst. by destruct H1.
  - inversion Heq; subst.
    destruct (IH s2 t1 t2) as [-> ->]; [tauto|tauto|done|done].
Qed.

Lemma rate_key_cut (c u c' u' : Z) :
  rate_key c u = rate_key c' u' →
  str_of_int c = str_of_int c' ∧ str_of_int u = str_of_int u'.
Proof.
  unfold rate_key. intros Heq.
  by apply colon_split in Heq; try apply str_of_int_colon_free.
Qed.

(** Different (chat, user) pairs never share an admission key. *)
Theorem rate_key_inj (chat_id user_id chat_id' user_id' : Z) :
  rate_key chat_id user_id = rate_key chat_id' user_id' →
  chat_id = chat_id' ∧ user_id = user_id'.
Proof.
  intros [Hc Hu]%rate_key_cut.
  split; by apply (inj (pretty : Z → string)).
Qed.

Lemma rate_key_inj_witness :
  (-1001234 : Z) = -1001234 ∧ (42 : Z) = 42.
Proof. apply (rate_key_inj (-1001234) 42 (-1001234) 42). reflexivity. Defined.

Section AdmissionFrame.

Context {W : Type} `{GT : GoogleTranslator W} `{UT : UnicodeTables}.

(** Handling an update of one user in one chat never touches the
    admission entry of another user, or of the same user in another
    chat. *)
Theorem handle_message_other_keys_untouched
    (now : Q) (update : Update) (st : State W) (chat_id' user_id' : Z) :
  (chat_id', user_id')
    ≠ (effective_chat_id update, effective_user_id update) →
  RATE_LIMIT (snd (handle_message now update st))
    !! rate_key chat_id' user_id'
  = RATE_LIMIT st !! rate_key chat_id' user_id'.
Proof.
  intros Hne.
  destruct (handle_message_rate_limit now update st) as [_ ->].
  destruct (effective_message update); [|done].
  destruct (_ && _); [|done].
  unfold is_rate_limited. destruct (Qlt_le_dec _ _); [done|]. simpl.
  apply lookup_insert_ne. intros Heq.
  apply rate_key_cut in Heq as [Hc Hu]. apply Hne.
  apply (inj (pretty : Z → string)) in Hc, Hu. by rewrite Hc, Hu.
Qed.

End AdmissionFrame.

Lemma handle_message_other_keys_untouched_witness :
  RATE_LIMIT after_hello !! rate_key 7 10 = None.
Proof.
  apply (@handle_message_other_keys_untouched unit working_provider
           ascii_only 100 (in_chat7 hello) init_es 7 10).
  vm_compute. discriminate.
Defined.

(** Over any run of checks a stored time is never removed and never moves
    backwards, also when the clock does: what is stored for a key
    afterwards is what was stored before or a later time. *)
Theorem run_checks_monotone
    (evs : list (string * Q)) (m : gmap string Q) (key : string) (t0 : Q) :
  m !! key = Some t0 →
  ∃ t1, snd (run_checks evs m) !! key = Some t1 ∧ (t0 <= t1)%Q.
Proof.
  revert m t0. induction evs as [|[k now] evs IH]; intros m t0 Hm; simpl.
  - exists t0. split; [done|apply Qle_refl].
  - destruct (is_rate_limited now k m) as [limited m1] eqn:E1.
    assert (Hm1 : ∃ t, m1 !! key = Some t ∧ (t0 <= t)%Q).
    { unfold is_rate_limited in E1.
      destruct (Qlt_le_dec _ _) as [|Hle]; inversion E1; subst.
      - exists t0. split; [done|apply Qle_refl].
      - destruct (decide (k = key)) as [->|Hne].
        + exists now. split; [apply lookup_insert_eq|].
          rewrite Hm in Hle. simpl in Hle.
          apply Qle_minus_iff. apply Qle_trans with RATE_SECONDS; [|exact Hle].
          by compute.
        + exists t0. split; [by rewrite lookup_insert_ne|apply Qle_refl]. }
    destruct Hm1 as (t & Ht & Hle).
    destruct (run_checks evs m1) as [log m2] eqn:E2. simpl.
    destruct (IH m1 t Ht) as (t1 & Ht1 & Hle1). rewrite E2 in Ht1.
    exists t1. split; [done|]. by apply Qle_trans with t.
Qed.

Lemma run_checks_monotone_witness :
  ∃ t1, snd (run_checks [("7:9"%string, 50%Q); ("7:9"%string, 103%Q)]
               {["7:9"%string := 100%Q]}) !! "7:9"%string = Some t1
        ∧ (100 <= t1)%Q.
Proof.
  apply (run_checks_monotone
           [("7:9"%string, 50%Q); ("7:9"%string, 103%Q)]
           {["7:9"%string := 100%Q]} "7:9" 100).
  reflexivity.
Defined.

(** ** The cache over many calls *)

Lemma lru_find_Some_elem k v (c : list (key * string)) :
  lru_find k c = Some v → (k, v) ∈ c.
Proof.
  induction c as [|[k' v'] c IH]; simpl; [done|].
  destruct (decide (k = k')) as [->|_].
  - intros [= ->]. apply list_elem_of_here.
  - intros Hfind. apply list_elem_of_further. by apply IH.
Qed.

Lemma lru_find_None_keys k (c : list (key * string)) :
  lru_find k c = None → k ∉ c.*1.
Proof.
  induction c as [|[k' v'] c IH]; simpl; [intros _; apply not_elem_of_nil|].
  destruct (decide (k = k')) as [|Hne]; [done|].
  intros Hfind. apply not_elem_of_cons. split; [done|by apply IH].
Qed.

Lemma lru_find_filter_other k k' (c : list (key * string)) :
  k' ≠ k → lru_find k' (filter (λ e, e.1 ≠ k) c) = lru_find k' c.
Proof.
  intros Hne. induction c as [|[k1 v1] c IH]; [done|].
  rewrite filter_cons. simpl.
  destruct (decide (k1 ≠ k)) as [H1|H1]; simpl.
  - by destruct (decide (k' = k1)).
  - destruct (decide (k' = k1)) as [->|_]; [|done].
    exfalso. apply H1. done.
Qed.

Lemma lru_touch_ok k v (c : list (key * string)) :
  lru_find k c = Some v → cache_ok c → cache_ok (lru_touch k v c).
Proof.
  intros Hfind [Hlen Hnd]. unfold lru_touch. split.
  - rewrite length_app. simpl.
    pose proof (length_filter_lt (λ e : key * string, e.1 ≠ k) c (k, v)
                  (lru_find_Some_elem _ _ _ Hfind)) as Hlt.
    simpl in Hlt. specialize (Hlt (λ H, H eq_refl)). lia.
  - rewrite fmap_app. apply NoDup_app. split; [|split].
    + eapply sublist_NoDup; [exact Hnd|].
      apply fmap_sublist, sublist_filter.
    + intros x Hx. apply list_elem_of_fmap in Hx as ([k1 v1] & -> & Hin).
      apply list_elem_of_filter in Hin as [Hne _]. simpl in *.
      intros Hin%list_elem_of_singleton. done.
    + simpl. apply NoDup_singleton.
Qed.

Lemma lru_store_ok k v (c : list (key * string)) :
  lru_find k c = None → cache_ok c → cache_ok (lru_store maxsize k v c).
Proof.
  intros Hfind [Hlen Hnd]. split; [by apply lru_store_length|].
  unfold lru_store.
  destruct (maxsize =? 0)%nat; [done|].
  assert (Hadd : ∀ c' : list (key * string),
            c' `sublist_of` c → NoDup ((c' ++ [(k, v)]).*1)).
  { intros c' Hsub. rewrite fmap_app. apply NoDup_app. split; [|split].
    - eapply sublist_NoDup; [exact Hnd|]. by apply fmap_sublist.
    - intros x Hx Hin%list_elem_of_singleton. subst x.
      apply (lru_find_None_keys _ _ Hfind).
      eapply elem_of_sublist; [exact Hx|]. by apply fmap_sublist.
    - simpl. apply NoDup_singleton. }
  destruct (maxsize <=? length c)%nat; apply Hadd; [|done].
  destruct c as [|x c']; [done|]. simpl. by apply sublist_cons.
Qed.

Section CacheSessions.

Context {W : Type} `{GT : GoogleTranslator W} `{UT : UnicodeTables}.

Lemma cached_translate_ok text src dst (st : State W) :
  cache_ok (cache st) → cache_ok (cache (snd (cached_translate text src dst st))).
Proof.
  intros Hok. unfold cached_translate.
  destruct (lru_find _ _) as [v|] eqn:Hfind; simpl.
  - by apply lru_touch_ok.
  - destruct (gt_translate _ _ _ _) as [[v|e] w']; simpl; [|done].
    by apply lru_store_ok.
Qed.

Lemma handle_message_ok now update (st : State W) :
  cache_ok (cache st) → cache_ok (cache (snd (handle_message now update st))).
Proof.
  intros Hok. unfold handle_message.
  destruct (effective_message update) as [message|]; [|done].
  destruct (_ || _); [done|].
  destruct (is_rate_limited _ _ _) as [[|] rl]; simpl; [done|].
  destruct (or_ _ _) as [s|]; [|done].
  destruct (negb (truthy (Some s)) || negb (has_text s)); [done|].
  destruct (detect_lang _ _) as [src w]. simpl.
  destruct (String.eqb _ _); [done|].
  unfold translate_async.
  pose proof (cached_translate_ok s src
                (chat_target (effective_chat_id update) (db st))
                (set_world w (set_RATE_LIMIT rl st)) Hok) as Hok'.
  by destruct (cached_translate _ _ _ _) as [[tr|e] st3].
Qed.

(** However many updates are handled, the cache never holds more than
    5000 entries and never two entries for one (text, source, target). *)
Theorem cache_stays_bounded (evs : list (Q * Update)) (st : State W) :
  cache_ok (cache st) →
  (length (cache (handle_messages evs st)) <= 5000)%nat
  ∧ NoDup ((cache (handle_messages evs st)).*1).
Proof.
  revert st. induction evs as [|[now update] evs IH]; intros st Hok; simpl.
  - exact Hok.
  - apply IH. by apply handle_message_ok.
Qed.

(** A call that returns a value leaves it in the cache. *)
Lemma cached_translate_stores text src dst (st st1 : State W) v :
  cached_translate text src dst st = (Ok v, st1) →
  lru_find (text, src, dst) (cache st1) = Some v.
Proof.
  intros Hcall.
  destruct (lru_find (text, src, dst) (cache st)) as [v0|] eqn:Hfind.
  - destruct (cached_translate_hit text src dst st v0 Hfind)
      as (st' & Hcall' & _ & _ & _ & _ & _ & Hfind').
    rewrite Hcall' in Hcall. by inversion Hcall; subst.
  - destruct (cached_translate_miss text src dst st Hfind)
      as (st' & Hcall' & _ & _ & _ & _ & _ & Hcache).
    rewrite Hcall' in Hcall. inversion Hcall as [[Hres Hst]]. subst st'.
    rewrite Hres in Hcache. rewrite Hcache. by apply lru_find_store.
Qed.

(** An entry that was just used is not the one the next call evicts:
    after a hit on [k0], a call for any other key leaves [k0] cached with
    its value, whether that call hits, stores a new entry or fails. *)
Theorem recently_used_entry_survives
    (text0 src0 dst0 text src dst v0 : string) (st : State W) :
  lru_find (text0, src0, dst0) (cache st) = Some v0 →
  (text, src, dst) ≠ (text0, src0, dst0) →
  let st1 := snd (cached_translate text0 src0 dst0 st) in
  let st2 := snd (cached_translate text src dst st1) in
  lru_find (text0, src0, dst0) (cache st2) = Some v0.
Proof.
  intros Hfind Hne st1 st2.
  set (k0 := (text0, src0, dst0)) in *. set (k := (text, src, dst)) in *.
  assert (Hc1 : cache st1 = lru_touch k0 v0 (cache st)).
  { unfold st1, cached_translate. fold k0. by rewrite Hfind. }
  unfold lru_touch in Hc1.
  set (f := filter (λ e : key * string, e.1 ≠ k0) (cache st)) in *.
  assert (Hf : lru_find k0 f = None) by apply lru_find_filter_out.
  clearbody f.
  assert (Hk0 : k0 ≠ k) by congruence.
  unfold st2, cached_translate. fold k.
  destruct (lru_find k (cache st1)) as [v|] eqn:Hfind1; simpl.
  - unfold lru_touch. rewrite lru_find_app.
    rewrite (lru_find_filter_other k k0 _ Hk0), Hc1.
    by rewrite lru_find_app, Hf, lru_find_self.
  - destruct (gt_translate _ _ _ _) as [[v|e] w']; simpl.
    + unfold lru_store. rewrite Hc1.
      destruct (maxsize =? 0)%nat eqn:H0; [done|].
      destruct f as [|x f'].
      * change (maxsize <=? length ([] ++ [(k0, v0)]))%nat with false.
        cbv iota. by rewrite !lru_find_app, lru_find_self.
      * pose proof (lru_find_tail k0 (x :: f') Hf) as Hf'. simpl in Hf'.
        cbn [app tail].
        destruct (maxsize <=? _)%nat.
        -- by rewrite !lru_find_app, Hf', lru_find_self.
        -- change (x :: (f' ++ [(k0, v0)]) ++ [(k, v)])
             with (((x :: f') ++ [(k0, v0)]) ++ [(k, v)]).
           by rewrite !lru_find_app, Hf, lru_find_self.
    + by rewrite Hc1, lru_find_app, Hf, lru_find_self.
Qed.

(** When the cache is full, storing a new result drops the least recently
    used entry and keeps every other one. *)
Theorem full_cache_evicts_least_recent
    (text src dst v v0 : string) (k0 : key) (rest : list (key * string))
    (st : State W) :
  cache st = (k0, v0) :: rest →
  length (cache st) = maxsize →
  lru_find k0 rest = None →
  lru_find (text, src, dst) (cache st) = None →
  fst (gt_translate (world st) src dst text) = Ok v →
  let st' := snd (cached_translate text src dst st) in
  cache st' = rest ++ [((text, src, dst), v)]
  ∧ lru_find k0 (cache st') = None
  ∧ lru_find (text, src, dst) (cache st') = Some v
  ∧ (∀ k', k' ≠ k0 → k' ≠ (text, src, dst) →
       lru_find k' (cache st') = lru_find k' (cache st)).
Proof.
  intros Hc Hlen Hk0 Hmiss Hok st'.
  assert (Hc' : cache st' = rest ++ [((text, src, dst), v)]).
  { unfold st', cached_translate. rewrite Hmiss.
    destruct (gt_translate _ _ _ _) as [r w']. simpl in Hok. subst r. simpl.
    unfold lru_store. rewrite Hlen, Nat.leb_refl, Hc. done. }
  rewrite Hc'. split; [done|]. rewrite Hc in Hmiss. cbn [lru_find] in Hmiss.
  case_decide as Hne; [done|].
  split; [|split].
  - rewrite lru_find_app, Hk0. simpl.
    destruct (decide (k0 = (text, src, dst))); [congruence|done].
  - by rewrite lru_find_app, Hmiss, lru_find_self.
  - intros k' Hk' Hk. rewrite lru_find_app, Hc. simpl.
    destruct (decide (k' = k0)); [done|].
    destruct (lru_find k' rest); [done|]. simpl.
    by destruct (decide (k' = (text, src, dst))).
Qed.

End CacheSessions.

Lemma cache_stays_bounded_witness :
  (length (cache (@handle_messages unit working_provider ascii_only
                    [(100%Q, in_chat7 hello); (200%Q, in_chat7 hello)]
                    init_es)) <= 5000)%nat
  ∧ NoDup ((cache (@handle_messages unit working_provider ascii_only
                     [(100%Q, in_chat7 hello); (200%Q, in_chat7 hello)]
                     init_es)).*1).
Proof.
  apply (@cache_stays_bounded unit working_provider ascii_only).
  split; [apply Nat.le_0_l|apply NoDup_nil_2].
Defined.

Lemma recently_used_entry_survives_witness :
  lru_find ("Hello world", "en", "es")%string
    (cache (snd (@cached_translate unit failing_provider "Bye" "en" "es"
                   (snd (@cached_translate unit failing_provider
                           "Hello world" "en" "es" after_hello)))))
  = Some "Hola mundo"%string.
Proof.
  apply (@recently_used_entry_survives unit failing_provider
           "Hello world" "en" "es" "Bye" "en" "es" "Hola mundo" after_hello).
  - reflexivity.
  - discriminate.
Defined.

Lemma full_cache_evicts_least_recent_witness :
  lru_find (sample_key 0)
    (cache (snd (@cached_translate unit working_provider
                   "Hello world" "en" "es" full_state))) = None
  ∧ lru_find ("Hello world", "en", "es")%string
      (cache (snd (@cached_translate unit working_provider
                     "Hello world" "en" "es" full_state)))
    = Some "Hola mundo"%string.
Proof.
  destruct (@full_cache_evicts_least_recent unit working_provider
              "Hello world" "en" "es" "Hola mundo" "x" (sample_key 0)
              (tail full_cache) full_state)
    as (_ & Hold & Hnew & _).
  - vm_compute. reflexivity.
  - vm_compute. reflexivity.
  - vm_compute. reflexivity.
  - vm_compute. reflexivity.
  - reflexivity.
  - split; assumption.
Defined.

(** ** More on the message handler *)

Section HandlerComposition.

Context {W : Type} `{GT : GoogleTranslator W} `{UT : UnicodeTables}.

(** A message whose payload holds no word character is dropped after the
    admission check: nothing is sent and the provider is not asked, not
    even for detection, but in an enabled chat from an enabled user the
    check has run and its outcome is stored. *)
Theorem wordless_text_dropped
    (now : Q) (update : Update) (st : State W) (message : Message)
    (s : string) :
  effective_message update = Some message →
  or_ (text message) (caption message) = Some s →
  has_text s = false →
  handle_message now update st
  = (Ok tt,
     if chat_enabled (effective_chat_id update) (db st)
        && user_enabled (effective_user_id update) (db st)
     then admitted now update st
     else st).
Proof.
  intros Hmsg Hor Hht. unfold handle_message, admitted.
  rewrite Hmsg.
  destruct (chat_enabled _ _), (user_enabled _ _); simpl; try done.
  destruct (is_rate_limited _ _ _) as [[|] rl]; simpl; [done|].
  rewrite Hor, Hht. by rewrite orb_true_r.
Qed.

(** When detection fails, the handler goes on with the source ["auto"]:
    with stored targets that are supported codes, the translation is
    requested for (text, "auto", target), and a returned text is sent
    under the heading AUTO. *)
Theorem detection_failure_translates_from_auto
    (now : Q) (update : Update) (st : State W) (s : string) (e : exn) :
  let dst := chat_target (effective_chat_id update) (db st) in
  let st2 := set_world (snd (gt_detect (world st) s))
               (admitted now update st) in
  passes_gates now update st s →
  targets_supported (db st) →
  fst (gt_detect (world st) s) = Raise e →
  handle_message now update st
  = match cached_translate s "auto" dst st2 with
    | (Raise e', st3) => (Raise e', st3)
    | (Ok translated, st3) =>
        (Ok tt, reply_text ("🌐 AUTO → " +:+ upper dst
                              +:+ String "010"%char translated) st3)
    end.
Proof.
  intros dst st2 Hgates Hsup Hfail.
  assert (Hdst : dst ≠ "auto"%string).
  { unfold dst, chat_target.
    destruct (chat_settings (db st) !! effective_chat_id update)
      as [row|] eqn:Hrow; [|done].
    intros Hauto. pose proof (Hsup _ _ Hrow) as Hs. simpl in Hs.
    rewrite Hauto in Hs. by vm_compute in Hs. }
  rewrite (handle_message_passes _ _ _ _ Hgates).
  unfold detected, detect_lang. unfold admitted at 1. simpl world.
  destruct (gt_detect (world st) s) as [r w'] eqn:Hdet.
  simpl in Hfail. subst r. fold dst. simpl in st2. fold st2.
  destruct (String.eqb_spec "auto" dst) as [Heq|_]; [by subst|].
  done.
Qed.

(** A translation that was delivered is served from the cache afterwards:
    when the same text comes again, in any chat with the same target, and
    is detected as the same source, the same translation is sent and the
    provider's translate is not called. *)
Theorem repeat_served_from_cache
    (now now' : Q) (update update' : Update) (st st2 st3 : State W)
    (s src translated : string) :
  let dst := chat_target (effective_chat_id update) (db st) in
  let st4 := snd (handle_message now update st) in
  passes_gates now update st s →
  detected now update st s = (src, st2) →
  src ≠ dst →
  cached_translate s src dst st2 = (Ok translated, st3) →
  passes_gates now' update' st4 s →
  chat_target (effective_chat_id update') (db st) = dst →
  fst (detect_lang s (world st4)) = src →
  ∃ st5, handle_message now' update' st4 = (Ok tt, st5)
    ∧ sent st5 = sent st4 ++ [reply_of src dst translated]
    ∧ calls st5 = calls st4.
Proof.
  intros dst st4 Hgates Hdet Hne Htr Hgates' Hdst Hsrc.
  assert (Hst4 : st4 = reply_text (reply_of src dst translated) st3).
  { unfold st4. rewrite (handle_message_passes _ _ _ _ Hgates), Hdet.
    cbv beta iota zeta. fold dst.
    destruct (String.eqb_spec src dst) as [|_]; [done|]. by rewrite Htr. }
  assert (Hdb4 : db st4 = db st) by apply handle_message_rate_limit.
  assert (Hfind : lru_find (s, src, dst) (cache st4) = Some translated).
  { rewrite Hst4. simpl. by eapply cached_translate_stores. }
  rewrite (handle_message_passes _ _ _ _ Hgates').
  destruct (detected now' update' st4 s) as [src' st2'] eqn:Hdet'.
  destruct (detected_frame _ _ _ _ _ _ Hdet')
    as (Hsrc' & Hsent' & Hcalls' & Hcache' & _).
  cbv beta iota zeta. rewrite Hdb4, Hdst, Hsrc', Hsrc.
  destruct (String.eqb_spec src dst) as [|_]; [done|].
  rewrite <- Hcache' in Hfind.
  destruct (cached_translate_hit _ _ _ _ _ Hfind)
    as (st5 & Hcall & Hcalls5 & _ & Hsent5 & _).
  rewrite Hcall. eexists. split; [reflexivity|]. simpl.
  split; congruence.
Qed.

End HandlerComposition.

Lemma wordless_text_dropped_witness :
  @handle_message unit working_provider ascii_only 100
    (in_chat7 (MkMessage (Some "?!"%string) None)) init_es
  = (Ok tt, @admitted unit 100 (in_chat7 hello) init_es).
Proof.
  apply (@wordless_text_dropped unit working_provider ascii_only 100
           (in_chat7 (MkMessage (Some "?!"%string) None)) init_es
           (MkMessage (Some "?!"%string) None) "?!");
    reflexivity.
Defined.

(** A provider without detection. *)
Lemma detection_failure_translates_from_auto_witness :
  let blind : GoogleTranslator unit := {|
    gt_detect := λ w _, (Raise (Exception "no detect"), w);
    gt_translate := λ w _ _ _, (Ok "Hola mundo"%string, w) |} in
  sent (snd (@handle_message unit blind ascii_only 100 (in_chat7 hello)
               init_es))
  = [("🌐 AUTO → ES" +:+ String "010"%char "Hola mundo")%string].
Proof.
  intros blind.
  rewrite (@detection_failure_translates_from_auto unit blind ascii_only
             100 (in_chat7 hello) init_es "Hello world"
             (Exception "no detect")).
  - reflexivity.
  - apply hello_passes_gates; reflexivity.
  - apply (@run_commands_targets_supported ascii_case
             [(in_chat7 hello, SetLang ["es"%string])] empty_db).
    apply map_Forall_empty.
  - reflexivity.
Defined.

Lemma repeat_served_from_cache_witness :
  ∃ st5 : State unit,
    @handle_message unit working_provider ascii_only 200
      (MkUpdate (Some hello) 7 10) after_hello = (Ok tt, st5)
    ∧ length (sent st5) = 2%nat
    ∧ calls st5 = [("Hello world", "en", "es")]%string.
Proof.
  destruct (@repeat_served_from_cache unit working_provider ascii_only
              100 200 (in_chat7 hello) (MkUpdate (Some hello) 7 10) init_es
              (snd (@detected unit working_provider 100 (in_chat7 hello)
                      init_es "Hello world"))
              (snd (@cached_translate unit working_provider
                      "Hello world" "en" "es"
                      (snd (@detected unit working_provider 100
                              (in_chat7 hello) init_es "Hello world"))))
              "Hello world" "en" "Hola mundo")
    as (st5 & Hrun & Hsent & Hcalls).
  - apply hello_passes_gates; reflexivity.
  - reflexivity.
  - vm_compute. discriminate.
  - reflexivity.
  - exists hello. vm_compute. repeat split; try reflexivity. discriminate.
  - reflexivity.
  - reflexivity.
  - exists st5. split; [exact Hrun|]. split.
    + rewrite Hsent. reflexivity.
    + rewrite Hcalls. reflexivity.
Defined.

(** ** Commands and the handler *)

Lemma lower_char_idem c : lower_char (lower_char c) = lower_char c.
Proof. by destruct c as [[] [] [] [] [] [] [] []]. Qed.

Lemma lower_char_ascii c :
  (nat_of_ascii c <? 128)%nat = true →
  (nat_of_ascii (lower_char c) <? 128)%nat = true.
Proof. by destruct c as [[] [] [] [] [] [] [] []]. Qed.

Lemma is_ascii_lower s :
  is_ascii s = true → is_ascii (map_str lower_char s) = true.
Proof.
  induction s as [|c s IH]; simpl; [done|].
  intros [Hc Hs]%andb_true_iff.
  by rewrite (lower_char_ascii c Hc), (IH Hs).
Qed.

Lemma map_lower_idem s :
  map_str lower_char (map_str lower_char s) = map_str lower_char s.
Proof.
  induction s as [|c s IH]; simpl; [done|].
  by rewrite lower_char_idem, IH.
Qed.

Lemma lower_idem {UC : UnicodeCase} s :
  is_ascii s = true → lower (lower s) = lower s.
Proof.
  intros Hs. unfold lower. rewrite Hs, (is_ascii_lower s Hs).
  apply map_lower_idem.
Qed.

Lemma supported_entries {UC : UnicodeCase} :
  Forall (λ cn, lower cn.1 = cn.1
                ∧ dict_get SUPPORTED_LANGUAGES cn.1 = Some cn.2)
         SUPPORTED_LANGUAGES.
Proof.
  unfold SUPPORTED_LANGUAGES at 2.
  repeat (apply Forall_cons; split; [by vm_compute|]).
  apply Forall_nil_2.
Qed.

(** Every code of [SUPPORTED_LANGUAGES] is accepted by [/setlang] as it is
    listed: the command stores it, confirms with the language's name, and
    leaves the chat enabled. *)
Theorem setlang_accepts_listed_codes
    {UC : UnicodeCase} (code name : string) (update : Update) (rest : list string) (db : DB) :
  (code, name) ∈ SUPPORTED_LANGUAGES →
  let r := setlang update (code :: rest) db in
  snd r = ("🌐 Target language set to " +:+ name +:+ " (" +:+ code +:+ ")")
  ∧ chat_target (effective_chat_id update) (fst r) = code
  ∧ chat_enabled (effective_chat_id update) (fst r) = true.
Proof.
  intros Hin.
  pose proof (proj1 (Forall_forall _ _) supported_entries _ Hin)
    as [Hlow Hget].
  simpl in Hlow, Hget. unfold setlang. rewrite Hlow, Hget. simpl.
  unfold chat_target, chat_enabled. simpl.
  by rewrite replace_chat_lookup.
Qed.

Lemma setlang_accepts_listed_codes_witness :
  chat_target 7 (fst (@setlang ascii_case (in_chat7 hello)
                        ["zh-tw"%string] db_es))
  = "zh-tw"%string.
Proof.
  apply (@setlang_accepts_listed_codes ascii_case
           "zh-tw" "Chinese (Traditional)" (in_chat7 hello) [] db_es).
  apply (bool_decide_unpack
           (("zh-tw"%string, "Chinese (Traditional)"%string)
              ∈ SUPPORTED_LANGUAGES)).
  vm_compute. exact I.
Defined.

(** [/setlang] reads only its first argument; and when that argument
    holds ASCII characters only, the case of its letters plays no part:
    the command gives the same database and the same reply on the
    argument and on its lower-case form. *)
Theorem setlang_case_insensitive
    {UC : UnicodeCase}
    (update : Update) (arg0 : string) (rest rest' : list string) (db : DB) :
  setlang update (arg0 :: rest) db = setlang update (arg0 :: rest') db
  ∧ (is_ascii arg0 = true →
       setlang update (arg0 :: rest) db
       = setlang update (lower arg0 :: rest') db).
Proof.
  split; [done|]. intros Hascii. unfold setlang.
  by rewrite (lower_idem arg0 Hascii).
Qed.

Lemma setlang_case_insensitive_witness :
  @setlang ascii_case (in_chat7 hello) ["Zh-TW"; "please"]%string db_es
  = @setlang ascii_case (in_chat7 hello) [@lower ascii_case "Zh-TW"] db_es.
Proof.
  apply (@setlang_case_insensitive ascii_case (in_chat7 hello) "Zh-TW"
           ["please"%string] [] db_es).
  reflexivity.
Defined.

(** In any database the commands produce, a disabled chat has the default
    target language: disabling forgets the chosen language, and choosing
    a language enables the chat. *)
Theorem disabled_chat_has_default_target
    {UC : UnicodeCase} (cmds : list (Update * command)) (chat_id : Z) :
  chat_enabled chat_id (run_commands cmds empty_db) = false →
  chat_target chat_id (run_commands cmds empty_db) = "en"%string.
Proof.
  assert (Hinv : ∀ db, rows_canonical db →
                 rows_canonical (run_commands cmds db)).
  { unfold run_commands. induction cmds as [|[update c] cmds IH];
      intros db Hdb; simpl; [done|].
    apply IH. unfold rows_canonical in *.
    assert (Hrep : ∀ en tl,
              default DEFAULT_enabled en = 1
              ∨ (default DEFAULT_enabled en = 0
                 ∧ default DEFAULT_target_lang tl = "en"%string) →
              map_Forall (λ _ row, enabled row = 1
                            ∨ (enabled row = 0
                               ∧ target_lang row = "en"%string))
                (replace_into_chat_settings (effective_chat_id update)
                   en tl (chat_settings db))).
    { intros en tl Hnew c' row Hrow.
      destruct (decide (c' = effective_chat_id update)) as [->|Hne].
      - rewrite replace_chat_lookup in Hrow. by inversion Hrow.
      - rewrite replace_chat_other in Hrow by done. by apply (Hdb c'). }
    destruct c as [ | | | |args]; simpl; try done.
    - apply Hrep. by left.
    - apply Hrep. by right.
    - unfold setlang. destruct args as [|arg0 rest]; [done|].
      destruct (dict_get SUPPORTED_LANGUAGES (lower arg0)); [|done].
      simpl. apply Hrep. by left. }
  specialize (Hinv empty_db (map_Forall_empty _)).
  unfold chat_enabled, chat_target.
  destruct (chat_settings _ !! chat_id) as [row|] eqn:Hrow; [|done].
  intros Hoff. destruct (Hinv _ _ Hrow) as [H1|[_ Hen]]; [|done].
  simpl in H1. rewrite H1 in Hoff. done.
Qed.

Lemma disabled_chat_has_default_target_witness :
  chat_target 7 (@run_commands ascii_case
                   [(in_chat7 hello, SetLang ["fr"%string]);
                    (in_chat7 hello, TranslateOff)] empty_db)
  = "en"%string.
Proof.
  apply (@disabled_chat_has_default_target ascii_case
           [(in_chat7 hello, SetLang ["fr"%string]);
            (in_chat7 hello, TranslateOff)] 7).
  reflexivity.
Defined.

Section CommandsAndHandler.

Context {W : Type} `{GT : GoogleTranslator W} `{UT : UnicodeTables}.

(** After [/user_off], every message of that user is dropped without any
    effect, in every chat; [/user_on] enables the user again; and neither
    command touches another user or the chat table. *)
Theorem user_off_silences_user
    (now : Q) (cmd msg : Update) (st : State W) :
  let off := fst (user_off cmd (db st)) in
  (effective_user_id msg = effective_user_id cmd →
     handle_message now msg (set_db off st) = (Ok tt, set_db off st))
  ∧ user_enabled (effective_user_id cmd) (fst (user_on cmd off)) = true
  ∧ (∀ user_id, user_id ≠ effective_user_id cmd →
       user_enabled user_id off = user_enabled user_id (db st)
       ∧ user_enabled user_id (fst (user_on cmd (db st)))
         = user_enabled user_id (db st))
  ∧ chat_settings off = chat_settings (db st)
  ∧ chat_settings (fst (user_on cmd (db st))) = chat_settings (db st).
Proof.
  simpl. split; [|split; [|split; [|done]]].
  - intros Huser. apply handle_message_disabled. right.
    rewrite Huser. unfold user_enabled, replace_into_user_settings. simpl.
    by rewrite lookup_insert_eq.
  - unfold user_enabled, replace_into_user_settings. simpl.
    by rewrite lookup_insert_eq.
  - intros user_id Hne.
    unfold user_enabled, replace_into_user_settings. simpl.
    rewrite !lookup_insert_ne, !lookup_delete_ne by congruence. done.
Qed.

(** After [/translate_off], every message in that chat is dropped without
    any effect, whoever sends it; [/translate_on] enables the chat
    again. *)
Theorem translate_off_silences_chat
    (now : Q) (cmd msg : Update) (st : State W) :
  let off := fst (translate_off cmd (db st)) in
  (effective_chat_id msg = effective_chat_id cmd →
     handle_message now msg (set_db off st) = (Ok tt, set_db off st))
  ∧ chat_enabled (effective_chat_id cmd) (fst (translate_on cmd off)) = true
  ∧ user_settings off = user_settings (db st).
Proof.
  simpl. split; [|split; [|done]].
  - intros Hchat. apply handle_message_disabled. left.
    rewrite Hchat. unfold chat_enabled. simpl.
    by rewrite replace_chat_lookup.
  - unfold chat_enabled. simpl. by rewrite replace_chat_lookup.
Qed.

End CommandsAndHandler.

Lemma user_off_silences_user_witness :
  @handle_message unit working_provider ascii_only 100
    (MkUpdate (Some hello) 8 9)
    (set_db (fst (user_off (in_chat7 hello) db_es)) init_es)
  = (Ok tt, set_db (fst (user_off (in_chat7 hello) db_es)) init_es).
Proof.
  apply (@user_off_silences_user unit working_provider ascii_only 100
           (in_chat7 hello) (MkUpdate (Some hello) 8 9) init_es).
  reflexivity.
Defined.

Lemma translate_off_silences_chat_witness :
  @handle_message unit working_provider ascii_only 100
    (MkUpdate (Some hello) 7 10)
    (set_db (fst (translate_off (in_chat7 hello) db_es)) init_es)
  = (Ok tt, set_db (fst (translate_off (in_chat7 hello) db_es)) init_es).
Proof.
  apply (@translate_off_silences_chat unit working_provider ascii_only 100
           (in_chat7 hello) (MkUpdate (Some hello) 7 10) init_es).
  reflexivity.
Defined.

(** ** The listing *)

Lemma str_append_assoc (a b c : string) : (a +:+ b) +:+ c = a +:+ b +:+ c.
Proof.
  induction a as [|x a IH]; [done|].
  change (String x ((a +:+ b) +:+ c) = String x (a +:+ b +:+ c)).
  by f_equal.
Qed.

Lemma str_append_nil_r (a : string) : a +:+ "" = a.
Proof.
  induction a as [|x a IH]; [done|].
  change (String x (a +:+ "") = String x a). by f_equal.
Qed.

Lemma join_elem sep (items : list string) x :
  x ∈ items → ∃ pre post, join sep items = pre +:+ x +:+ post.
Proof.
  induction items as [|y items IH]; intros Hin.
  - by apply elem_of_nil in Hin.
  - apply elem_of_cons in Hin as [->|Hin].
    + destruct items as [|z items].
      * exists ""%string, ""%string.
        change (y = y +:+ ""). by rewrite str_append_nil_r.
      * exists ""%string, (sep +:+ join sep (z :: items)). done.
    + destruct (IH Hin) as (pre & post & Heq).
      destruct items as [|z items]; [by apply elem_of_nil in Hin|].
      exists (y +:+ sep +:+ pre), post.
      change (join sep (y :: z :: items))
        with (y +:+ sep +:+ join sep (z :: items)).
      by rewrite Heq, !str_append_assoc.
Qed.

(** The reply of [/languages] shows, for every entry of
    [SUPPORTED_LANGUAGES], the name followed by the code in brackets, the
    very text with which [/setlang] confirms that code. *)
Theorem languages_lists_every_code
    {UC : UnicodeCase} (code name : string) (update : Update) (db : DB) :
  (code, name) ∈ SUPPORTED_LANGUAGES →
  (∃ pre post,
     languages_command update = pre +:+ (name +:+ " (" +:+ code +:+ ")") +:+ post)
  ∧ snd (setlang update [code] db)
    = "🌐 Target language set to " +:+ (name +:+ " (" +:+ code +:+ ")").
Proof.
  intros Hin. split.
  - unfold languages_command.
    destruct (join_elem ", " (map language_item SUPPORTED_LANGUAGES)
                (language_item (code, name))) as (pre & post & Heq).
    { apply list_elem_of_fmap. by exists (code, name). }
    exists ("🌍 Supported Languages:" +:+ String "010"%char pre), post.
    cbv zeta. rewrite Heq. unfold language_item. simpl fst. simpl snd.
    by rewrite !str_append_assoc.
  - pose proof (proj1 (Forall_forall _ _) supported_entries _ Hin)
      as [Hlow Hget].
    simpl in Hlow, Hget. unfold setlang. by rewrite Hlow, Hget.
Qed.

Lemma languages_lists_every_code_witness :
  ∃ pre post,
    languages_command (in_chat7 hello)
    = pre +:+ ("Hebrew" +:+ " (" +:+ "he" +:+ ")") +:+ post.
Proof.
  apply (@languages_lists_every_code ascii_case
           "he" "Hebrew" (in_chat7 hello) db_es).
  apply (bool_decide_unpack
           (("he"%string, "Hebrew"%string) ∈ SUPPORTED_LANGUAGES)).
  vm_compute. exact I.
Defined.

Lemma handle_message_at_most_one_reply_witness :
  sent (snd (@handle_message unit failing_provider ascii_only
               100 (in_chat7 hello) init_es)) = sent init_es.
Proof.
  destruct (@handle_message_at_most_one_reply unit failing_provider
              ascii_only 100 (in_chat7 hello) init_es)
    as (_ & _ & _ & Hraise).
  apply (Hraise (Exception "quota exceeded")). reflexivity.
Defined.
